(** * Bismuth node: API command handler ([libs/apihandler.py])

    A shallow embedding of the command dispatcher, the block-grouping
    adapter and the ledger query handlers of [ApiHandler], with the
    properties stated about them in the specification.

    Conventions of the embedding:
    - Python values that travel through rows and dicts are [scalar]s;
      values read from the session are [pyval]s (a scalar or a list of
      scalars).  Floating point values are not represented: the result of
      Python's true division is kept symbolically ([NTrueDiv]).
    - Exceptions are values of type [exc]; code that may raise returns an
      [outcome].
    - Handlers run in the monad [M]: they thread a [world] made of what is
      still to be read from the session, the cursor of the ledger handle
      and the trace of what was sent, logged and asked to storage.  What a
      handler prints on standard output is left out. *)

From Stdlib Require Import ZArith Ascii String List Lia.
From stdpp Require Import base option list gmap strings pretty sorting.

Local Open Scope string_scope.
Local Open Scope Z_scope.
Local Open Scope list_scope.

(** ** Values and exceptions *)

Inductive scalar :=
| SNone
| SInt (z : Z)
| SStr (s : string).

#[global] Instance scalar_eq_dec : EqDecision scalar.
Proof. solve_decision. Defined.

Definition scalar_encode (v : scalar) : unit + (Z + string) :=
  match v with
  | SNone => inl tt
  | SInt z => inr (inl z)
  | SStr s => inr (inr s)
  end.

Definition scalar_decode (x : unit + (Z + string)) : scalar :=
  match x with
  | inl _ => SNone
  | inr (inl z) => SInt z
  | inr (inr s) => SStr s
  end.

#[global] Instance scalar_countable : Countable scalar.
Proof.
  apply (inj_countable' scalar_encode scalar_decode).
  intros []; reflexivity.
Defined.

Inductive pyval :=
| PVal (v : scalar)
| PList (l : list scalar).

#[global] Instance pyval_eq_dec : EqDecision pyval.
Proof. solve_decision. Defined.

Inductive exc_class :=
| AttributeError
| TypeError
| ValueError
| KeyError
| IndexError
| OtherError (name : string).

(** An instance of Python's [Exception], which is what [except Exception]
    catches: its class and [str(e)].  The exits of the interpreter
    ([SystemExit], [KeyboardInterrupt]) are not exceptions of this model. *)
Record exc := Exc { exc_cls : exc_class; exc_msg : string }.

Inductive outcome (A : Type) :=
| Return (a : A)
| Raise (e : exc).
Arguments Return {A} a.
Arguments Raise {A} e.

#[global] Instance outcome_ret : MRet outcome := fun A a => Return a.
#[global] Instance outcome_bind : MBind outcome := fun A B f c =>
  match c with
  | Return a => f a
  | Raise e => Raise e
  end.

(** ** The block-grouping adapter: [ApiHandler.blocktojsondiffs] *)

Abbreviation txdict := (gmap string scalar).

(** [d[k]] and [del d[k]] on a dict: both raise [KeyError] on a missing key. *)
Definition py_getitem (k : string) (d : txdict) : outcome scalar :=
  match d !! k with
  | Some v => Return v
  | None => Raise (Exc KeyError ("'" +:+ k +:+ "'"))
  end.

Definition py_del (k : string) (d : txdict) : outcome txdict :=
  match d !! k with
  | Some _ => Return (delete k d)
  | None => Raise (Exc KeyError ("'" +:+ k +:+ "'"))
  end.

(** [l[i]] on a list and [t[0]] on a tuple, for an index that is not negative. *)
Definition py_index {A} (kind : string) (l : list A) (i : nat) : outcome A :=
  match l !! i with
  | Some x => Return x
  | None => Raise (Exc IndexError (kind +:+ " index out of range"))
  end.

(** The values of [block_dict]: a transaction dict under ['mining_tx'], a list
    of them under ['transactions']. *)
Inductive blockval :=
| BTx (d : txdict)
| BTxs (l : list txdict).

Abbreviation blockdict := (gmap string blockval).

(** The local variables of [blocktojsondiffs].  [list(normal_transactions)]
    and [dict(block_dict)] are copies and every [transaction_formatted] is a
    fresh dict, so that no two of them alias and they are kept by value. *)
Record loop_state := LoopState {
  st_i : nat;
  st_blocks_dict : gmap scalar blockdict;
  st_block_dict : blockdict;
  st_normal_transactions : list txdict;
  st_old : scalar
}.

Definition loop_init : loop_state :=
  LoopState 0 ∅ ∅ [] SNone.

Section Adapter.
Context {RawTx : Type}.
(** [Transaction.from_legacy(tx).to_dict(legacy=True, decode_pubkey=True)]
    of [bismuthcore], taken as given. *)
Variable to_dict : RawTx → txdict.
Variable list_of_diffs : list (list scalar).

Definition loop_body (st : loop_state) (transaction : RawTx) : outcome loop_state :=
  let transaction_formatted := to_dict transaction in
  height ← py_getitem "block_height" transaction_formatted;
  transaction_formatted ← py_del "block_height" transaction_formatted;
  let '(block_dict, normal_transactions) :=
    if decide (st_old st = height)
    then (st_block_dict st, st_normal_transactions st)
    else (∅, []) in
  reward ← py_getitem "reward" transaction_formatted;
  if decide (reward = SStr "0.00000000") then
    transaction_formatted ← py_del "block_hash" transaction_formatted;
    transaction_formatted ← py_del "reward" transaction_formatted;
    Return (LoopState (st_i st) (st_blocks_dict st) block_dict
              (normal_transactions ++ [transaction_formatted])%list height)
  else
    transaction_formatted ← py_del "address" transaction_formatted;
    transaction_formatted ← py_del "amount" transaction_formatted;
    diff_row ← py_index "list" list_of_diffs (st_i st);
    difficulty ← py_index "tuple" diff_row 0%nat;
    let transaction_formatted := <["difficulty" := difficulty]> transaction_formatted in
    let block_dict := <["mining_tx" := BTx transaction_formatted]> block_dict in
    let block_dict := <["transactions" := BTxs normal_transactions]> block_dict in
    Return (LoopState (S (st_i st))
              (<[height := block_dict]> (st_blocks_dict st))
              block_dict normal_transactions height).

Fixpoint run_loop (list_of_txs : list RawTx) (st : loop_state) : outcome loop_state :=
  match list_of_txs with
  | [] => Return st
  | transaction :: rest => st' ← loop_body st transaction; run_loop rest st'
  end.

End Adapter.

(** The adapter itself: the rows, then the difficulties, as in the source. *)
Definition blocktojsondiffs {RawTx : Type} (to_dict : RawTx → txdict)
    (list_of_txs : list RawTx) (list_of_diffs : list (list scalar))
  : outcome (gmap scalar blockdict) :=
  st ← run_loop to_dict list_of_diffs list_of_txs loop_init;
  Return (st_blocks_dict st).

(** ** The ledger store *)

(** A row of table [transactions], columns in storage order.  Amounts are the
    integers of the v2 encoding (units of 1e-8). *)
Record Row := {
  tx_block_height : Z;
  tx_timestamp : scalar;
  tx_address : string;
  tx_recipient : string;
  tx_amount : Z;
  tx_signature : string;
  tx_public_key : string;
  tx_block_hash : string;
  tx_fee : Z;
  tx_reward : Z;
  tx_operation : string;
  tx_openfield : string
}.

(** What a cursor yields for a row: a tuple of cells. *)
Abbreviation tuple := (list scalar).

Definition row_tuple (r : Row) : tuple :=
  [SInt (tx_block_height r); tx_timestamp r; SStr (tx_address r);
   SStr (tx_recipient r); SInt (tx_amount r); SStr (tx_signature r);
   SStr (tx_public_key r); SStr (tx_block_hash r); SInt (tx_fee r);
   SInt (tx_reward r); SStr (tx_operation r); SStr (tx_openfield r)].

(** The ledger handle of one call.  The lookups that [DbHandler] implements
    outside this module are fields: the answer of [block_height_max()], and
    [known_address], [pubkeyget] and [get_address_range], which may raise. *)
Record DbHandler := {
  db_transactions : list Row;
  db_misc : list (Z * scalar);
  db_block_height_max : Z;
  db_case_sensitive_like : bool;
  db_known_address : pyval → outcome bool;
  db_pubkeyget : pyval → outcome string;
  db_get_address_range : pyval → pyval → Z → outcome (list tuple)
}.

(** The statements that the handlers hand to [_execute_param]; their text is
    fixed, the caller's values only travel as bound parameters. *)
Inductive statement :=
| SelectTxRange
| SelectDiffRange
| SelectTxSince
| SelectTxSinceOpenfieldLike
| SelectTxAddressSince
| SelectCredit
| SelectDebit
| SelectReceived.

Definition sql_text (stmt : statement) : string :=
  match stmt with
  | SelectTxRange =>
      "SELECT * FROM transactions WHERE block_height >= ? AND block_height < ?"
  | SelectDiffRange =>
      "SELECT difficulty FROM misc WHERE block_height >= ? AND block_height < ?"
  | SelectTxSince =>
      "SELECT * FROM transactions WHERE block_height > ?"
  | SelectTxSinceOpenfieldLike =>
      "SELECT * FROM transactions WHERE block_height > ? and block_height <= ? and openfield like ?"
  | SelectTxAddressSince =>
      "SELECT * FROM transactions WHERE block_height > ? AND block_height <= ? AND ((address = ?) OR (recipient = ?)) ORDER BY block_height ASC"
  | SelectCredit =>
      "SELECT sum(amount)+sum(reward) FROM transactions WHERE recipient = ? and block_height <= ?"
  | SelectDebit =>
      "SELECT sum(amount)+sum(fee) FROM transactions WHERE address = ? and block_height <= ?;"
  | SelectReceived =>
      "SELECT sum(amount) FROM transactions WHERE recipient = ? and block_height <= ?;"
  end.

(** SQL [sum]: NULL over no row; [+] yields NULL as soon as a side is NULL. *)
Definition sum_list (l : list Z) : Z := foldr Z.add 0 l.

Definition sql_sum (l : list Z) : scalar :=
  match l with
  | [] => SNone
  | _ => SInt (sum_list l)
  end.

Definition sql_add (a b : scalar) : scalar :=
  match a, b with
  | SInt x, SInt y => SInt (x + y)
  | _, _ => SNone
  end.

(** [column = ?] on a text column: an integer parameter is compared through
    its decimal text, NULL never matches. *)
Definition sql_text_eq (column : string) (p : scalar) : bool :=
  match p with
  | SStr a => bool_decide (column = a)
  | SInt z => bool_decide (column = pretty z)
  | SNone => false
  end.

(** SQL [LIKE]: [%] stands for any run of characters, [_] for any one
    character; letters compare without case unless the store was set to
    case-sensitive LIKE. *)
Definition ascii_lower (c : ascii) : ascii :=
  let n := Ascii.nat_of_ascii c in
  if ((65 <=? n)%nat && (n <=? 90)%nat)%bool then Ascii.ascii_of_nat (n + 32) else c.

Definition like_char_eq (case_sensitive : bool) (a b : ascii) : bool :=
  if case_sensitive then Ascii.eqb a b
  else Ascii.eqb (ascii_lower a) (ascii_lower b).

Fixpoint sql_like (case_sensitive : bool) (pattern : string) : string → bool :=
  match pattern with
  | EmptyString => λ s, match s with EmptyString => true | _ => false end
  | String c pattern' =>
      if Ascii.eqb c "%"%char then
        fix any_run (s : string) : bool :=
          sql_like case_sensitive pattern' s ||
          match s with
          | EmptyString => false
          | String _ s' => any_run s'
          end
      else if Ascii.eqb c "_"%char then
        λ s, match s with
             | EmptyString => false
             | String _ s' => sql_like case_sensitive pattern' s'
             end
      else
        λ s, match s with
             | EmptyString => false
             | String x s' =>
                 like_char_eq case_sensitive c x && sql_like case_sensitive pattern' s'
             end
  end.

Definition height_le (r1 r2 : Row) : Prop := tx_block_height r1 ≤ tx_block_height r2.

#[global] Instance height_le_dec : RelDecision height_le.
Proof. intros r1 r2. unfold height_le. apply _. Defined.

(** What the store answers to a statement with its bound parameters. *)
Definition run_statement (db : DbHandler) (stmt : statement) (params : list scalar)
  : outcome (list tuple) :=
  let txs := db_transactions db in
  match stmt, params with
  | SelectTxRange, [SInt lo; SInt hi] =>
      Return (row_tuple <$>
        filter (λ r, lo ≤ tx_block_height r ∧ tx_block_height r < hi) txs)
  | SelectDiffRange, [SInt lo; SInt hi] =>
      Return ((λ m, [m.2]) <$> filter (λ m, lo ≤ m.1 ∧ m.1 < hi) (db_misc db))
  | SelectTxSince, [SInt h] =>
      Return (row_tuple <$> filter (λ r, h < tx_block_height r) txs)
  | SelectTxSinceOpenfieldLike, [SInt lo; SInt hi; SStr pattern] =>
      Return (row_tuple <$>
        filter (λ r, lo < tx_block_height r ∧ tx_block_height r ≤ hi ∧
                     sql_like (db_case_sensitive_like db) pattern (tx_openfield r) = true) txs)
  | SelectTxAddressSince, [SInt lo; SInt hi; a1; a2] =>
      Return (row_tuple <$> merge_sort height_le
        (filter (λ r, lo < tx_block_height r ∧ tx_block_height r ≤ hi ∧
                      (sql_text_eq (tx_address r) a1 || sql_text_eq (tx_recipient r) a2) = true)
                txs))
  | SelectCredit, [a; SInt h] =>
      let rows := filter (λ r, sql_text_eq (tx_recipient r) a = true ∧ tx_block_height r ≤ h) txs in
      Return [[sql_add (sql_sum (tx_amount <$> rows)) (sql_sum (tx_reward <$> rows))]]
  | SelectDebit, [a; SInt h] =>
      let rows := filter (λ r, sql_text_eq (tx_address r) a = true ∧ tx_block_height r ≤ h) txs in
      Return [[sql_add (sql_sum (tx_amount <$> rows)) (sql_sum (tx_fee <$> rows))]]
  | SelectReceived, [a; SInt h] =>
      let rows := filter (λ r, sql_text_eq (tx_recipient r) a = true ∧ tx_block_height r ≤ h) txs in
      Return [[sql_sum (tx_amount <$> rows)]]
  | _, _ =>
      Raise (Exc (OtherError "sqlite3.ProgrammingError") "Incorrect bindings supplied.")
  end.

(** ** Sessions, logs and the handler monad *)

Inductive level := Info | Warning | Error.

(** What is handed to the logger: a finished string, an exception (logged
    through [str]), a format with its arguments, or the
    ["{exc_type} {fname} {lineno}"] line built from the traceback. *)
Inductive logmsg :=
| LogStr (s : string)
| LogExc (e : exc)
| LogFmt (fmt : string) (args : list pyval)
| LogTrace (e : exc).

(** A number sent back: a Python [int], or the float [n / d] of a true
    division, kept symbolically. *)
Inductive number :=
| NInt (z : Z)
| NTrueDiv (n d : Z).

(** An element of a list response: a stored tuple as it is, the tuple
    [Transaction.from_v2(tx).to_tuple()], or a plain list. *)
Inductive item :=
| ITuple (t : tuple)
| IFromV2 (t : tuple)
| IList (l : list scalar).

Inductive response :=
| RStr (s : string)
| RInfo (known : bool) (pubkey : string)
| RItems (l : list item)
| RAddressSince (last : Z) (minconf : Z) (transactions : list item)
| RNumber (n : number)
| RJson (blocks : gmap scalar blockdict)
| RBlocksDict (transactions : list tuple).

Inductive event :=
| EvSend (r : response)
| EvLog (lvl : level) (msg : logmsg)
| EvExecute (stmt : statement) (params : list scalar)
| EvDbCall (method : string) (args : list pyval).

(** The state a handler acts on: the parameters still to be read from the
    session, the rows held by the cursor [db_handler.h], and everything done
    so far, oldest first. *)
Record world := World {
  w_inbox : list pyval;
  w_cursor : list tuple;
  w_trace : list event
}.

Definition M (A : Type) : Type := world → outcome A * world.

#[global] Instance M_ret : MRet M := λ A a w, (Return a, w).
#[global] Instance M_bind : MBind M := λ A B f c w,
  match c w with
  | (Return a, w') => f a w'
  | (Raise e, w') => (Raise e, w')
  end.

Definition raise {A} (e : exc) : M A := λ w, (Raise e, w).

Definition lift {A} (o : outcome A) : M A := λ w, (o, w).

(** [try: body except Exception as e: handler e]; what [body] did before it
    raised stays done. *)
Definition try_except {A} (body : M A) (handler : exc → M A) : M A := λ w,
  match body w with
  | (Return a, w') => (Return a, w')
  | (Raise e, w') => handler e w'
  end.

Definition emit (ev : event) : M unit := λ w,
  (Return tt, World (w_inbox w) (w_cursor w) (w_trace w ++ [ev])%list).

(** [connections.receive] and [connections.send] of the transport layer: one
    framed value is read, or written; reading from a session that has nothing
    left fails. *)
Definition receive : M pyval := λ w,
  match w_inbox w with
  | v :: rest => (Return v, World rest (w_cursor w) (w_trace w))
  | [] => (Raise (Exc (OtherError "RuntimeError") "Socket EOF"), w)
  end.

Definition send (r : response) : M unit := emit (EvSend r).

Definition log (lvl : level) (msg : logmsg) : M unit := emit (EvLog lvl msg).

Definition block_height_max (db_handler : DbHandler) : M Z :=
  emit (EvDbCall "block_height_max" []);;
  mret (db_block_height_max db_handler).

Definition _execute_param (db_handler : DbHandler) (stmt : statement) (params : list scalar)
  : M unit := λ w,
  let w := World (w_inbox w) (w_cursor w) (w_trace w ++ [EvExecute stmt params])%list in
  match run_statement db_handler stmt params with
  | Return rows => (Return tt, World (w_inbox w) rows (w_trace w))
  | Raise e => (Raise e, w)
  end.

Definition fetchall : M (list tuple) := λ w,
  (Return (w_cursor w), World (w_inbox w) [] (w_trace w)).

Definition fetchone : M (option tuple) := λ w,
  match w_cursor w with
  | row :: rest => (Return (Some row), World (w_inbox w) rest (w_trace w))
  | [] => (Return None, w)
  end.

(** What was sent on the session, and what was asked to storage. *)
Definition sent (w : world) : list response :=
  omap (λ ev, match ev with EvSend r => Some r | _ => None end) (w_trace w).

Definition is_storage_event (ev : event) : bool :=
  match ev with
  | EvExecute _ _ | EvDbCall _ _ => true
  | _ => false
  end.

Definition storage_events (w : world) : list event :=
  List.filter is_storage_event (w_trace w).

(** ** Python operators on received values *)

Definition type_name (v : pyval) : string :=
  match v with
  | PVal SNone => "NoneType"
  | PVal (SInt _) => "int"
  | PVal (SStr _) => "str"
  | PList _ => "list"
  end.

Definition unsupported (op : string) (l r : string) : exc :=
  Exc TypeError (op +:+ " not supported between instances of '" +:+ l +:+ "' and '" +:+ r +:+ "'").

(** [max(a, v)] for an int [a]. *)
Definition py_max (a : Z) (v : pyval) : outcome Z :=
  match v with
  | PVal (SInt b) => Return (Z.max a b)
  | _ => Raise (unsupported "'>'" (type_name v) "int")
  end.

(** [if v > cap: v = cap], for an int [cap]. *)
Definition py_cap (v : pyval) (cap : Z) : outcome Z :=
  match v with
  | PVal (SInt l) => Return (if bool_decide (l > cap) then cap else l)
  | _ => Raise (unsupported "'>'" (type_name v) "int")
  end.

(** [if v < floor: v = floor], for an int [floor]. *)
Definition py_floor (v : pyval) (floor : Z) : outcome Z :=
  match v with
  | PVal (SInt l) => Return (if bool_decide (l < floor) then floor else l)
  | _ => Raise (unsupported "'<'" (type_name v) "int")
  end.

(** The [TypeError] of [v + r] for an [r] of the type named [other] that
    [v] cannot be added to: a string or a list only concatenates with its own
    type, and says so naming the other type between double quotes; [None]
    and an int have no [+] with it. *)
Definition cannot_add (v : pyval) (other : string) : exc :=
  let quoted := String "034"%char other +:+ String "034"%char EmptyString in
  match v with
  | PVal (SStr _) | PList _ =>
      Exc TypeError ("can only concatenate " +:+ type_name v +:+ " (not " +:+ quoted +:+
                     ") to " +:+ type_name v)
  | _ =>
      Exc TypeError ("unsupported operand type(s) for +: '" +:+ type_name v +:+
                     "' and '" +:+ other +:+ "'")
  end.

(** [v + b] for an int [b]. *)
Definition py_add_int (v : pyval) (b : Z) : outcome (Z * Z) :=
  match v with
  | PVal (SInt a) => Return (a, a + b)
  | _ => Raise (cannot_add v "int")
  end.

(** [v + '%']. *)
Definition py_add_str (v : pyval) (suffix : string) : outcome string :=
  match v with
  | PVal (SStr s) => Return (s +:+ suffix)
  | _ => Raise (cannot_add v "str")
  end.

(** [for x in v]: the elements of a list, the characters of a string. *)
Fixpoint chars (s : string) : list scalar :=
  match s with
  | EmptyString => []
  | String c s' => SStr (String c EmptyString) :: chars s'
  end.

Definition py_iter (v : pyval) : outcome (list scalar) :=
  match v with
  | PList l => Return l
  | PVal (SStr s) => Return (chars s)
  | _ => Raise (Exc TypeError ("'" +:+ type_name v +:+ "' object is not iterable"))
  end.

(** [row[0]] on what [fetchone()] gave. *)
Definition first_column (row : option tuple) : outcome scalar :=
  match row with
  | Some cells => py_index "tuple" cells 0%nat
  | None => Raise (Exc TypeError "'NoneType' object is not subscriptable")
  end.

(** [if not v: v = 0], then [v] used as a number. *)
Definition or_zero (v : scalar) : outcome Z :=
  match v with
  | SNone => Return 0
  | SInt z => Return z
  | SStr "" => Return 0
  | SStr _ => Raise (Exc TypeError "unsupported operand type(s)")
  end.

(** ** The handler object *)

(** [self], together with the names of other modules that its methods call:
    the configuration flag, the address validator of [polysign], the
    transaction codec of [bismuthcore], and the builtins [int] and [str] on
    what they do not leave unchanged. *)
Record ApiHandler := {
  legacy_db : bool;
  address_is_valid : pyval → outcome bool;
  to_dict : tuple → txdict;
  int_of_str : string → option Z;
  str_of : pyval → string
}.

Record Peers := { consensus : list string }.

Inductive retval :=
| RetNone
| RetBool (b : bool)
| RetVal (v : pyval).

Definition truthy (r : retval) : bool :=
  match r with
  | RetNone => false
  | RetBool b => b
  | RetVal (PVal SNone) => false
  | RetVal (PVal (SInt z)) => negb (z =? 0)
  | RetVal (PVal (SStr s)) => negb (String.eqb s "")
  | RetVal (PList l) => negb (bool_decide (l = []))
  end.

(** [int(v)] and [str(v)]. *)
Definition py_int (self : ApiHandler) (v : pyval) : outcome Z :=
  match v with
  | PVal (SInt z) => Return z
  | PVal (SStr s) =>
      match int_of_str self s with
      | Some z => Return z
      | None => Raise (Exc ValueError "invalid literal for int() with base 10")
      end
  | _ => Raise (Exc TypeError "int() argument must be a string, a bytes-like object or a real number")
  end.

Definition py_str (self : ApiHandler) (v : pyval) : string :=
  match v with
  | PVal (SStr s) => s
  | _ => str_of self v
  end.

(** ** The query handlers *)

Section Handlers.
Variable self : ApiHandler.

(** The tuples of a result as they are sent: as stored on a legacy store,
    through [Transaction.from_v2(tx).to_tuple()] otherwise. *)
Definition as_legacy (info : list tuple) : list item :=
  if legacy_db self then ITuple <$> info else IFromV2 <$> info.

Definition api_ping (db_handler : DbHandler) (peers : Peers) : M retval :=
  send (RStr "api_pong");;
  mret RetNone.

(** [info] is updated in place: when [pubkeyget] raises, ['known'] keeps the
    value it was just given. *)
Definition api_getaddressinfo (db_handler : DbHandler) (peers : Peers) : M retval :=
  let info := (false, "") in
  address ← receive;
  try_except
    (valid ← lift (address_is_valid self address);
     if negb valid then
       log Info (LogFmt "Bad address format <{}>" [address]);;
       send (RInfo info.1 info.2);;
       mret RetNone
     else
       info ← try_except
         (emit (EvDbCall "known_address" [address]);;
          known ← lift (db_known_address db_handler address);
          let info := (known, info.2) in
          try_except
            (emit (EvDbCall "pubkeyget" [address]);;
             pubkey ← lift (db_pubkeyget db_handler address);
             mret (info.1, pubkey))
            (λ e, log Warning (LogFmt "api_getaddressinfo: {}" [PVal (SStr (exc_msg e))]);;
                  mret info))
         (λ e, log Warning (LogFmt "api_getaddressinfo: {}" [PVal (SStr (exc_msg e))]);;
               mret info);
       send (RInfo info.1 info.2);;
       mret RetNone)
    (λ e, log Warning (LogExc e);; mret RetNone).

Definition api_getaddressrange (db_handler : DbHandler) (peers : Peers) : M retval :=
  address ← receive;
  starting_block ← receive;
  limit ← receive;
  limit ← lift (py_cap limit 500);
  emit (EvDbCall "get_address_range" [address; starting_block; PVal (SInt limit)]);;
  transactions ← lift (db_get_address_range db_handler address starting_block limit);
  send (RBlocksDict transactions);;
  mret RetNone.

Definition api_getblockrange (db_handler : DbHandler) (peers : Peers) : M retval :=
  start_block ← receive;
  limit ← receive;
  limit ← lift (py_cap limit 50);
  reply ← try_except
    ('(start, stop) ← lift (py_add_int start_block limit);
     _execute_param db_handler SelectTxRange [SInt start; SInt stop];;
     raw_txs ← fetchall;
     '(start, stop) ← lift (py_add_int start_block limit);
     _execute_param db_handler SelectDiffRange [SInt start; SInt stop];;
     raw_diffs ← fetchall;
     blocks ← lift (blocktojsondiffs (to_dict self) raw_txs raw_diffs);
     mret (RJson blocks))
    (λ e, log Warning (LogExc e);; raise e);
  send reply;;
  mret RetNone.

Definition api_getblocksince (db_handler : DbHandler) (peers : Peers) : M retval :=
  since_height ← receive;
  try_except
    (info ← try_except
       (current ← block_height_max db_handler;
        block_height ← lift (py_max (current - 11) since_height);
        _execute_param db_handler SelectTxSince [SInt block_height];;
        info ← fetchall;
        mret (as_legacy info))
       (λ e, raise e);
     send (RItems info);;
     mret RetNone)
    (λ e, raise e).

Definition api_getblockswhereoflike (db_handler : DbHandler) (peers : Peers) : M retval :=
  since_height ← receive;
  since_height ← lift (py_int self since_height);
  where_openfield_like ← receive;
  where_openfield_like ← lift (py_add_str where_openfield_like "%");
  try_except
    ('(block_height, info) ← try_except
       (current ← block_height_max db_handler;
        let block_height := Z.min current (since_height + 1440) in
        _execute_param db_handler SelectTxSinceOpenfieldLike
          [SInt since_height; SInt block_height; SStr where_openfield_like];;
        info ← fetchall;
        mret (block_height, as_legacy info))
       (λ e, log Warning (LogExc e);; raise e);
     let info := (info ++ [IList [SInt block_height]])%list in
     send (RItems info);;
     mret RetNone)
    (λ e, log Warning (LogExc e);; log Warning (LogTrace e);; raise e).

Definition api_getblocksafterwhere (db_handler : DbHandler) (peers : Peers) : M retval :=
  since_height ← receive;
  where_conditions ← receive;
  log Warning (LogFmt "api_getblocksafterwhere" [since_height; where_conditions]);;
  raise (Exc ValueError "Unsafe, do not use yet").

Definition api_getaddresssince (db_handler : DbHandler) (peers : Peers) : M retval :=
  since_height ← receive;
  since_height ← lift (py_int self since_height);
  min_confirmations ← receive;
  min_confirmations ← lift (py_int self min_confirmations);
  address ← receive;
  let address := py_str self address in
  try_except
    ('(block_height, info) ← try_except
       (current ← block_height_max db_handler;
        let block_height := Z.min (current - min_confirmations) (since_height + 720) in
        _execute_param db_handler SelectTxAddressSince
          [SInt since_height; SInt block_height; SStr address; SStr address];;
        info ← fetchall;
        mret (block_height, as_legacy info))
       (λ e, raise e);
     send (RAddressSince block_height min_confirmations info);;
     mret RetNone)
    (λ e, raise e).

Definition _get_balance (db_handler : DbHandler) (address : scalar) (minconf : Z) : M Z :=
  try_except
    (current ← block_height_max db_handler;
     let max_block_height := current - minconf in
     _execute_param db_handler SelectCredit [address; SInt max_block_height];;
     row ← fetchone;
     credit ← lift (first_column row);
     credit ← lift (or_zero credit);
     _execute_param db_handler SelectDebit [address; SInt max_block_height];;
     row ← fetchone;
     debit ← lift (first_column row);
     debit ← lift (or_zero debit);
     mret (credit - debit))
    (λ e, raise e).

Definition _get_received (db_handler : DbHandler) (address : scalar) (minconf : Z) : M Z :=
  try_except
    (current ← block_height_max db_handler;
     let max_block_height := current - minconf in
     _execute_param db_handler SelectReceived [address; SInt max_block_height];;
     row ← fetchone;
     credit ← lift (first_column row);
     lift (or_zero credit))
    (λ e, raise e).

(** [for address in addresses: total += f(address)]. *)
Fixpoint accumulate (f : scalar → M Z) (addresses : list scalar) (total : Z) : M Z :=
  match addresses with
  | [] => mret total
  | address :: rest => x ← f address; accumulate f rest (total + x)
  end.

Definition to_units (total : Z) : number :=
  if legacy_db self then NInt total else NTrueDiv total 100000000.

Definition api_getbalance (db_handler : DbHandler) (peers : Peers) : M retval :=
  try_except
    (addresses ← receive;
     minconf ← receive;
     minconf ← lift (py_floor minconf 1);
     addresses ← lift (py_iter addresses);
     balance ← accumulate (λ address, _get_balance db_handler address minconf) addresses 0;
     send (RNumber (to_units balance));;
     mret RetNone)
    (λ e, raise e).

Definition api_getreceived (db_handler : DbHandler) (peers : Peers) : M retval :=
  try_except
    (addresses ← receive;
     minconf ← receive;
     minconf ← lift (py_floor minconf 1);
     addresses ← lift (py_iter addresses);
     received ← accumulate (λ address, _get_received db_handler address minconf) addresses 0;
     send (RNumber (to_units received));;
     mret RetNone)
    (λ e, raise e).

Definition api_gettransaction (db_handler : DbHandler) (peers : Peers) : M retval :=
  raise (Exc ValueError "Do not use yet - Rewrite").

Definition api_gettransactionbysignature (db_handler : DbHandler) (peers : Peers) : M retval :=
  raise (Exc ValueError "Do not use yet - Rewrite").

Definition api_gettransaction_for_recipients (db_handler : DbHandler) (peers : Peers) : M retval :=
  raise (Exc ValueError "Do not use yet - Rewrite").
End Handlers.

(** ** The dispatcher *)

(** What [getattr(self, method)] may find: [None], an object that cannot be
    called, or something that is called with the session, the ledger handle
    and the peers. *)
Inductive attribute :=
| AttrNone
| AttrObject (type_of : string)
| AttrCallable (call : DbHandler → Peers → M retval).

Section Dispatch.
(** The attributes of the handler object, by name. *)
Variable attributes : string → option attribute.

Definition py_getattr (method : string) : M attribute :=
  match attributes method with
  | Some a => mret a
  | None =>
      raise (Exc AttributeError
               ("'ApiHandler' object has no attribute '" +:+ method +:+ "'"))
  end.

Definition py_call (a : attribute) (db_handler : DbHandler) (peers : Peers) : M retval :=
  match a with
  | AttrCallable call => call db_handler peers
  | AttrObject type_of =>
      raise (Exc TypeError ("'" +:+ type_of +:+ "' object is not callable"))
  | AttrNone => raise (Exc TypeError "'NoneType' object is not callable")
  end.

Definition dispatch (method : string) (db_handler : DbHandler) (peers : Peers) : M retval :=
  try_except
    (call ← py_getattr method;
     match call with
     | AttrNone =>
         log Warning (LogStr ("API Method <" +:+ method +:+ "> does not exist."));;
         mret (RetBool false)
     | _ =>
         result ← py_call call db_handler peers;
         mret result
     end)
    (λ e, log Warning (LogStr ("Exception calling method " +:+ method +:+ ": " +:+ exc_msg e));;
          mret (RetBool false)).
End Dispatch.

(** The commands of the class modelled above and its data attributes; [others]
    stands for the remaining names of the object. *)
Definition commands (self : ApiHandler) : list (string * attribute) :=
  [("api_ping", AttrCallable (api_ping));
   ("api_getaddressinfo", AttrCallable (api_getaddressinfo self));
   ("api_getaddressrange", AttrCallable (api_getaddressrange));
   ("api_getblockrange", AttrCallable (api_getblockrange self));
   ("api_getblocksince", AttrCallable (api_getblocksince self));
   ("api_getblockswhereoflike", AttrCallable (api_getblockswhereoflike self));
   ("api_getblocksafterwhere", AttrCallable (api_getblocksafterwhere));
   ("api_getaddresssince", AttrCallable (api_getaddresssince self));
   ("api_getbalance", AttrCallable (api_getbalance self));
   ("api_getreceived", AttrCallable (api_getreceived self));
   ("api_gettransaction", AttrCallable (api_gettransaction));
   ("api_gettransactionbysignature", AttrCallable (api_gettransactionbysignature));
   ("api_gettransaction_for_recipients", AttrCallable (api_gettransaction_for_recipients));
   ("app_log", AttrObject "Logger");
   ("config", AttrObject "Config");
   ("callback_lock", AttrObject "_thread.lock");
   ("callbacks", AttrObject "list")].

Fixpoint assoc (name : string) (l : list (string * attribute)) : option attribute :=
  match l with
  | [] => None
  | (k, a) :: rest => if String.eqb k name then Some a else assoc name rest
  end.

Definition class_attributes (self : ApiHandler) (others : string → option attribute)
    (name : string) : option attribute :=
  match assoc name (commands self) with
  | Some a => Some a
  | None => others name
  end.

(** ** What the specification states, in its own terms *)

(** Running a handler on a fresh session that holds the given parameters. *)
Definition session (inbox : list pyval) : world := World inbox [] [].

Definition session_trace (tr : list event) : world := World [] [] tr.

(** The views of a row in a block: a normal transaction without [block_hash]
    and [reward], a mining transaction without [address] and [amount] and with
    the difficulty of its block; both without [block_height], which is the
    key of the block. *)
Definition normal_view (d : txdict) : txdict :=
  delete "reward" (delete "block_hash" (delete "block_height" d)).

Definition mining_view (difficulty : scalar) (d : txdict) : txdict :=
  <["difficulty" := difficulty]> (delete "amount" (delete "address" (delete "block_height" d))).

Definition block_of (mining_tx : txdict) (transactions : list txdict) : blockdict :=
  <["transactions" := BTxs transactions]> (<["mining_tx" := BTx mining_tx]> ∅).

Definition is_normal (d : txdict) : Prop := d !! "reward" = Some (SStr "0.00000000").

#[global] Instance is_normal_dec d : Decision (is_normal d).
Proof. unfold is_normal. apply _. Defined.

(** A formatted row has the fields that the adapter reads and removes. *)
Definition well_formed (d : txdict) : Prop :=
  is_Some (d !! "block_height") ∧ is_Some (d !! "reward") ∧
  is_Some (d !! "block_hash") ∧ is_Some (d !! "address") ∧ is_Some (d !! "amount").

(** A normal row, and a reward-bearing row, of the block at height [h]. *)
Definition normal_row (h : scalar) (d : txdict) : Prop :=
  well_formed d ∧ d !! "block_height" = Some h ∧ is_normal d.

Definition mining_row (h : scalar) (d : txdict) : Prop :=
  well_formed d ∧ d !! "block_height" = Some h ∧ ¬ is_normal d.

Definition mining_count {RawTx} (to_dict : RawTx → txdict) (txs : list RawTx) : nat :=
  length (filter (λ tx, ¬ is_normal (to_dict tx)) txs).

(** The balance and received aggregates of the data model. *)
Definition credit_of (db : DbHandler) (a : string) (minconf : Z) : Z :=
  sum_list ((λ r, tx_amount r + tx_reward r) <$>
    filter (λ r, tx_recipient r = a ∧ tx_block_height r ≤ db_block_height_max db - minconf)
           (db_transactions db)).

Definition debit_of (db : DbHandler) (a : string) (minconf : Z) : Z :=
  sum_list ((λ r, tx_amount r + tx_fee r) <$>
    filter (λ r, tx_address r = a ∧ tx_block_height r ≤ db_block_height_max db - minconf)
           (db_transactions db)).

Definition balance_of (db : DbHandler) (a : string) (minconf : Z) : Z :=
  credit_of db a minconf - debit_of db a minconf.

Definition received_of (db : DbHandler) (a : string) (minconf : Z) : Z :=
  sum_list (tx_amount <$>
    filter (λ r, tx_recipient r = a ∧ tx_block_height r ≤ db_block_height_max db - minconf)
           (db_transactions db)).

Definition total_over (f : string → Z) (addresses : list string) : Z :=
  sum_list (f <$> addresses).

(** A string starts with a prefix. *)
Fixpoint starts_with (prefix s : string) : bool :=
  match prefix, s with
  | EmptyString, _ => true
  | String c prefix', String x s' => Ascii.eqb c x && starts_with prefix' s'
  | String _ _, EmptyString => false
  end.

Fixpoint has_wildcard (s : string) : bool :=
  match s with
  | EmptyString => false
  | String c s' => Ascii.eqb c "%"%char || Ascii.eqb c "_"%char || has_wildcard s'
  end.

(** ** Sample data *)

(** The columns of a transaction, in storage order. *)
Definition columns : list string :=
  ["block_height"; "timestamp"; "address"; "recipient"; "amount"; "signature";
   "public_key"; "block_hash"; "fee"; "reward"; "operation"; "openfield"].

(** Modelled from the spec: [Transaction.to_dict(legacy=True)] of [bismuthcore]
    is not part of this module.  The fields are those of the transaction
    record of the data model, in the order of the stored columns; in the
    legacy encoding the amounts are fixed-point decimal strings. *)
Definition legacy_to_dict (t : tuple) : txdict := list_to_map (zip columns t).

Definition pad8 (s : string) : string :=
  String.concat "" (replicate (8 - String.length s) "0") +:+ s.

Definition format_amount (z : Z) : string :=
  pretty (z `div` 100000000) +:+ "." +:+ pad8 (pretty (z `mod` 100000000)).

Definition format_cell (column : string) (v : scalar) : scalar :=
  match v with
  | SInt z =>
      if bool_decide (column ∈ ["amount"; "fee"; "reward"]) then SStr (format_amount z) else v
  | _ => v
  end.

(** Modelled from the spec: the same view for a tuple of the v2 encoding,
    whose amounts are integers in units of 1e-8. *)
Definition v2_to_dict (t : tuple) : txdict :=
  list_to_map (zip_with (λ c v, (c, format_cell c v)) columns t).

Definition sample_tx (height : Z) (sender recipient : string) (amount fee reward : Z)
    (openfield : string) : Row :=
  {| tx_block_height := height; tx_timestamp := SInt 1500000000;
     tx_address := sender; tx_recipient := recipient; tx_amount := amount;
     tx_signature := "sig"; tx_public_key := "key"; tx_block_hash := "hash";
     tx_fee := fee; tx_reward := reward; tx_operation := ""; tx_openfield := openfield |}.

Definition sample_txs : list Row :=
  [sample_tx 98 "alice" "bob" 500000000 1000000 0 "shop:order1";
   sample_tx 98 "miner" "miner" 0 0 1500000000 "";
   sample_tx 99 "bob" "alice" 200000000 1000000 0 "Shop:order2";
   sample_tx 99 "miner" "miner" 0 0 1500000000 "";
   sample_tx 100 "alice" "carol" 100000000 1000000 0 "note";
   sample_tx 100 "miner" "miner" 0 0 1500000000 ""].

(** SQL [LIMIT n]: the first [n] rows, and every row when [n] is below 0. *)
Definition sql_limit {A} (n : Z) (rows : list A) : list A :=
  if bool_decide (n < 0) then rows else take (Z.to_nat n) rows.

(** Modelled from the spec: [DbHandler.get_address_range] is not under the
    sources.  The spec words it as the transactions of one address from a
    height on, up to a number of entries; the number is taken as the [LIMIT]
    of the query. *)
Definition sample_get_address_range (txs : list Row) (address starting_block : pyval) (limit : Z)
  : outcome (list tuple) :=
  match address, starting_block with
  | PVal a, PVal (SInt start) =>
      Return (row_tuple <$> sql_limit limit
        (filter (λ r, (sql_text_eq (tx_address r) a || sql_text_eq (tx_recipient r) a) = true ∧
                      start ≤ tx_block_height r) txs))
  | _, _ => Raise (Exc (OtherError "sqlite3.InterfaceError") "Error binding parameter")
  end.

Definition sample_db : DbHandler :=
  {| db_transactions := sample_txs;
     db_misc := [(98, SStr "105.1"); (99, SStr "105.2"); (100, SStr "105.3")];
     db_block_height_max := 100;
     db_case_sensitive_like := false;
     db_known_address := λ a, Return (bool_decide (a ∈ [PVal (SStr "alice"); PVal (SStr "bob")]));
     db_pubkeyget := λ _, Return "key";
     db_get_address_range := sample_get_address_range sample_txs |}.

(** The same ledger on a store set to case-sensitive LIKE. *)
Definition sample_db_case_sensitive : DbHandler :=
  {| db_transactions := db_transactions sample_db;
     db_misc := db_misc sample_db;
     db_block_height_max := db_block_height_max sample_db;
     db_case_sensitive_like := true;
     db_known_address := db_known_address sample_db;
     db_pubkeyget := db_pubkeyget sample_db;
     db_get_address_range := db_get_address_range sample_db |}.

(** A validator that accepts the 56 character addresses. *)
Definition sample_address_is_valid (v : pyval) : outcome bool :=
  match v with
  | PVal (SStr s) => Return (bool_decide (String.length s = 56%nat))
  | _ => Raise (Exc TypeError "expected string or bytes-like object")
  end.

Definition sample_self (legacy : bool) : ApiHandler :=
  {| legacy_db := legacy;
     address_is_valid := sample_address_is_valid;
     to_dict := v2_to_dict;
     int_of_str := λ _, None;
     str_of := λ _, "" |}.

Definition sample_peers : Peers := {| consensus := ["127.0.0.1"] |}.

(** The transactions of the openfield window as the specification words it:
    those of [(since_height, min(current_max_height, since_height + 1440)]]
    whose openfield starts with the prefix. *)
Definition prefix_window_rows (db : DbHandler) (since_height : Z) (prefix : string) : list Row :=
  filter (λ r, since_height < tx_block_height r ∧
               tx_block_height r ≤ Z.min (db_block_height_max db) (since_height + 1440) ∧
               starts_with prefix (tx_openfield r) = true)
         (db_transactions db).

(** ** States of the adapter loop *)

(** The block under construction and its normal transactions, as an iteration
    on a row of height [h] finds them after the test on [old]. *)
Definition group_state (st : loop_state) (h : scalar) : blockdict * list txdict :=
  if decide (st_old st = h) then (st_block_dict st, st_normal_transactions st) else (∅, []).

(** The state after a normal row, and after a reward-bearing row, whose views
    are [v]. *)
Definition after_normal (st : loop_state) (h : scalar) (v : txdict) : loop_state :=
  LoopState (st_i st) (st_blocks_dict st) (group_state st h).1
    ((group_state st h).2 ++ [v]) h.

Definition after_mining (st : loop_state) (h : scalar) (v : txdict) : loop_state :=
  let block := <["transactions" := BTxs (group_state st h).2]>
                 (<["mining_tx" := BTx v]> (group_state st h).1) in
  LoopState (S (st_i st)) (<[h := block]> (st_blocks_dict st)) block (group_state st h).2 h.

(** Nothing of a block of height [h] is under construction. *)
Definition fresh_for (h : scalar) (st : loop_state) : Prop :=
  st_old st ≠ h ∨ (st_block_dict st = ∅ ∧ st_normal_transactions st = []).

(** ** Events of the aggregate queries *)

(** The events of one balance query, and of one received query. *)
Definition balance_queries (db : DbHandler) (minconf : Z) (a : string) : list event :=
  [EvDbCall "block_height_max" [];
   EvExecute SelectCredit [SStr a; SInt (db_block_height_max db - minconf)];
   EvExecute SelectDebit [SStr a; SInt (db_block_height_max db - minconf)]].

Definition received_queries (db : DbHandler) (minconf : Z) (a : string) : list event :=
  [EvDbCall "block_height_max" [];
   EvExecute SelectReceived [SStr a; SInt (db_block_height_max db - minconf)]].

(** ** Claims that are put to the test *)

(** The claim under C3 that a caller who is caught up still receives the most
    recent ten blocks: every stored transaction of the heights
    [max - 9 .. max] is among the items sent. *)
Definition includes_recent_blocks (self : ApiHandler) (db : DbHandler) (peers : Peers)
    (since_height : Z) : Prop :=
  ∀ r, r ∈ db_transactions db →
       db_block_height_max db - 10 < tx_block_height r ≤ db_block_height_max db →
       ∃ items,
         sent (api_getblocksince self db peers (session [PVal (SInt since_height)])).2
           = [RItems items] ∧
         (ITuple (row_tuple r) ∈ items ∨ IFromV2 (row_tuple r) ∈ items).

(** The rows of the grouping example: two normal rows and the reward row of
    block 1, then the reward row of block 2, as legacy tuples. *)
Definition legacy_row (height : Z) (sender recipient amount fee reward : string) : tuple :=
  [SInt height; SStr "1500000000.00"; SStr sender; SStr recipient; SStr amount; SStr "sig";
   SStr "key"; SStr "hash"; SStr fee; SStr reward; SStr ""; SStr ""].

Definition row1 : tuple := legacy_row 1 "alice" "bob" "1.00000000" "0.01000000" "0.00000000".
Definition row2 : tuple := legacy_row 1 "bob" "carol" "2.00000000" "0.01000000" "0.00000000".
Definition row3 : tuple := legacy_row 1 "miner" "miner" "0.00000000" "0.00000000" "5.00000000".
Definition row4 : tuple := legacy_row 2 "miner" "miner" "0.00000000" "0.00000000" "3.00000000".

(** The same rows in another order: a normal row of block 1 comes after the
    reward row of its block, and block 3 has a normal row and no reward row. *)
Definition late_rows : list tuple :=
  [row1; row3; row2; row4;
   legacy_row 3 "carol" "alice" "1.00000000" "0.01000000" "0.00000000"].

(** * Further handlers *)

(** ** The mempool snapshot *)

(** [mp.MEMPOOL] is a name of another module: [None] until the mempool is
    set up, then an object whose [transactions_to_send()] gives the pending
    transactions as tuples, or raises.  It is handed over as [mempool]: the
    outcome of that call when there is an object.  The call is not inside a
    [try]: what it raises leaves the handler. *)
Definition api_mempool (mempool : option (outcome (list tuple))) (db_handler : DbHandler)
    (peers : Peers) : M retval :=
  response_tuples ←
    match mempool with
    | None => log Error (LogStr "MEMPOOL is None");; mret []
    | Some transactions_to_send => lift transactions_to_send
    end;
  send (RItems (ITuple <$> response_tuples));;
  mret RetNone.

(** ** Answers as a mapping, or as a list of peers *)

(** Two shapes of answer that [response] does not hold: the dict of addresses
    of [api_listreceived] and [api_listbalance], and the list of dicts
    [{'id', 'addr', 'inbound'}] of [api_getpeerinfo]. *)
Inductive reply :=
| ReplyMapping (m : gmap scalar number)
| ReplyPeers (l : list (nat * string * bool)).

(** What the handlers with such answers do: what the other handlers do, or
    the sending of a [reply]. *)
Inductive event2 :=
| Ev (ev : event)
| EvReply (r : reply).

Record world2 := World2 {
  w2_inbox : list pyval;
  w2_cursor : list tuple;
  w2_trace : list event2
}.

Definition M2 (A : Type) : Type := world2 → outcome A * world2.

#[global] Instance M2_ret : MRet M2 := λ A a w, (Return a, w).
#[global] Instance M2_bind : MBind M2 := λ A B f c w,
  match c w with
  | (Return a, w') => f a w'
  | (Raise e, w') => (Raise e, w')
  end.

(** An operation of [M] inside [M2]: it acts on the same session and cursor,
    and what it did is added to the trace. *)
Definition in_M {A} (m : M A) : M2 A := λ w,
  let '(o, w') := m (World (w2_inbox w) (w2_cursor w) []) in
  (o, World2 (w_inbox w') (w_cursor w') (w2_trace w ++ (Ev <$> w_trace w'))).

Definition try_except2 {A} (body : M2 A) (handler : exc → M2 A) : M2 A := λ w,
  match body w with
  | (Return a, w') => (Return a, w')
  | (Raise e, w') => handler e w'
  end.

Definition raise2 {A} (e : exc) : M2 A := λ w, (Raise e, w).

Definition send_reply (r : reply) : M2 unit := λ w,
  (Return tt, World2 (w2_inbox w) (w2_cursor w) (w2_trace w ++ [EvReply r])).

Definition session2 (inbox : list pyval) : world2 := World2 inbox [] [].

Definition replies (w : world2) : list reply :=
  omap (λ ev, match ev with EvReply r => Some r | _ => None end) (w2_trace w).

Definition storage_events2 (w : world2) : list event :=
  omap (λ ev, match ev with
              | Ev ev => if is_storage_event ev then Some ev else None
              | _ => None
              end) (w2_trace w).

(** The truth value of a received value, as [if v] takes it. *)
Definition py_truthy (v : pyval) : bool := truthy (RetVal v).

(** [n > 0]; a float [n / d] with [d] above 0 has the sign of [n]. *)
Definition positive (n : number) : bool :=
  match n with
  | NInt z => bool_decide (z > 0)
  | NTrueDiv n _ => bool_decide (n > 0)
  end.

Section ListHandlers.
Variable self : ApiHandler.

(** The loop of [api_listreceived]: the test is on the stored integer, the
    division comes after it. *)
Fixpoint list_received (db_handler : DbHandler) (minconf : Z) (include_empty : pyval)
    (addresses : list scalar) (received : gmap scalar number) : M (gmap scalar number) :=
  match addresses with
  | [] => mret received
  | address :: rest =>
      temp ← _get_received db_handler address minconf;
      let received :=
        if py_truthy include_empty || bool_decide (temp > 0)
        then <[address := to_units self temp]> received
        else received in
      list_received db_handler minconf include_empty rest received
  end.

(** The loop of [api_listbalance]: the division comes first, the test is on
    its result. *)
Fixpoint list_balance (db_handler : DbHandler) (minconf : Z) (include_empty : pyval)
    (addresses : list scalar) (balances : gmap scalar number) : M (gmap scalar number) :=
  match addresses with
  | [] => mret balances
  | address :: rest =>
      temp ← _get_balance db_handler address minconf;
      let temp := to_units self temp in
      let balances :=
        if py_truthy include_empty || positive temp
        then <[address := temp]> balances
        else balances in
      list_balance db_handler minconf include_empty rest balances
  end.

Definition api_listreceived (db_handler : DbHandler) (peers : Peers) : M2 retval :=
  let received := ∅ in
  try_except2
    (addresses ← in_M receive;
     minconf ← in_M receive;
     minconf ← in_M (lift (py_floor minconf 1));
     include_empty ← in_M receive;
     addresses ← in_M (lift (py_iter addresses));
     received ← in_M (list_received db_handler minconf include_empty addresses received);
     send_reply (ReplyMapping received);;
     mret RetNone)
    (λ e, raise2 e).

Definition api_listbalance (db_handler : DbHandler) (peers : Peers) : M2 retval :=
  let balances := ∅ in
  try_except2
    (addresses ← in_M receive;
     minconf ← in_M receive;
     minconf ← in_M (lift (py_floor minconf 1));
     include_empty ← in_M receive;
     addresses ← in_M (lift (py_iter addresses));
     balances ← in_M (list_balance db_handler minconf include_empty addresses balances);
     send_reply (ReplyMapping balances);;
     mret RetNone)
    (λ e, raise2 e).
End ListHandlers.

(** [enumerate(peers.consensus)], every peer reported as inbound. *)
Definition api_getpeerinfo (db_handler : DbHandler) (peers : Peers) : M2 retval :=
  try_except2
    (let info := imap (λ id ip, (id, ip, true)) (consensus peers) in
     send_reply (ReplyPeers info);;
     mret RetNone)
    (λ e, in_M (log Warning (LogExc e));; mret RetNone).

(** ** The handlers that answer through [send] *)

(** The handlers that answer through [send], by name. *)
Definition handlers (self : ApiHandler) (mempool : option (outcome (list tuple)))
  : list (string * (DbHandler → Peers → M retval)) :=
  [("api_mempool", api_mempool mempool);
   ("api_ping", api_ping);
   ("api_getaddressinfo", api_getaddressinfo self);
   ("api_getaddressrange", api_getaddressrange);
   ("api_getblockrange", api_getblockrange self);
   ("api_getblocksince", api_getblocksince self);
   ("api_getblockswhereoflike", api_getblockswhereoflike self);
   ("api_getblocksafterwhere", api_getblocksafterwhere);
   ("api_getaddresssince", api_getaddresssince self);
   ("api_getbalance", api_getbalance self);
   ("api_getreceived", api_getreceived self);
   ("api_gettransaction", api_gettransaction);
   ("api_gettransactionbysignature", api_gettransactionbysignature);
   ("api_gettransaction_for_recipients", api_gettransaction_for_recipients)].

(** An operation that returns, returns [None]. *)
Definition ends_in_none (m : M retval) : Prop :=
  ∀ w result w', m w = (Return result, w') → result = RetNone.

(** The one-character strings of a string, which is what iterating on it
    gives. *)
Fixpoint letters (s : string) : list string :=
  match s with
  | EmptyString => []
  | String c s' => String c EmptyString :: letters s'
  end.

(** ** Further sample rows *)

(** A second reward-bearing row at height 1, and the five rows of a ledger
    whose first block holds two of them. *)
Definition row5 : tuple :=
  legacy_row 1 "miner2" "miner2" "0.00000000" "0.00000000" "7.00000000".

Definition double_reward_rows : list tuple := [row1; row3; row2; row5; row4].

Definition three_diffs : list (list scalar) :=
  [[SStr "105.1"]; [SStr "105.2"]; [SStr "105.3"]].

(** An address of 56 characters, which [sample_address_is_valid] accepts. *)
Definition sample_address : string :=
  "0123456789abcdef0123456789abcdef0123456789abcdef01234567".

(** ** What the lookups and windows give *)

(** What the two lookups of the address info give, failures included. *)
Definition address_info (db : DbHandler) (address : pyval) : bool * string :=
  match db_known_address db address with
  | Raise _ => (false, "")
  | Return known =>
      match db_pubkeyget db address with
      | Return pubkey => (known, pubkey)
      | Raise _ => (known, "")
      end
  end.

(** The rows of the heights [(since_height, last]] that an address sent or
    received. *)
Definition address_window (db : DbHandler) (since_height last : Z) (address : string)
  : list Row :=
  filter (λ r, since_height < tx_block_height r ∧ tx_block_height r ≤ last ∧
               (tx_address r = address ∨ tx_recipient r = address))
         (db_transactions db).

(** The rows of one page of [api_getblockswhereoflike]. *)
Definition like_window (db : DbHandler) (since_height : Z) (prefix : string) : list Row :=
  filter (λ r, since_height < tx_block_height r ∧
               tx_block_height r ≤ Z.min (db_block_height_max db) (since_height + 1440) ∧
               sql_like (db_case_sensitive_like db) (prefix +:+ "%") (tx_openfield r) = true)
         (db_transactions db).

(** The entry of an address in a mapping built by a loop that keeps
    [value a] for the addresses that pass [keep]. *)
Definition kept (keep : string → bool) (value : string → number) (addresses : list string)
    (a : string) : option number :=
  if bool_decide (a ∈ addresses) && keep a then Some (value a) else None.

(** ** What a handler does to the session *)

(** From [w] to [w'] the trace was only added to, and the answers among what
    was added satisfy [P]. *)
Definition answers (w w' : world) (P : list response → Prop) : Prop :=
  ∃ extra, w_trace w' = w_trace w ++ extra ∧ P (sent (session_trace extra)).

(** An operation that sends nothing. *)
Definition silent {A} (m : M A) : Prop :=
  ∀ w, answers w (m w).2 (λ s, s = []).

(** An operation that sends one answer when it returns, none when it raises. *)
Definition answers_once {A} (m : M A) : Prop :=
  ∀ w, answers w (m w).2 (λ s,
    match (m w).1 with
    | Return _ => length s = 1%nat
    | Raise _ => s = []
    end).

Definition answers_at_most_once {A} (m : M A) : Prop :=
  ∀ w, answers w (m w).2 (λ s, (length s ≤ 1)%nat).

(** An operation that always raises. *)
Definition fails {A} (m : M A) : Prop := ∀ w, ∃ e, (m w).1 = Raise e.



(** The sample ledger on a store whose [misc] table stops at height 98. *)
Definition sample_db_short_misc : DbHandler :=
  {| db_transactions := db_transactions sample_db;
     db_misc := [(98, SStr "105.1")];
     db_block_height_max := db_block_height_max sample_db;
     db_case_sensitive_like := db_case_sensitive_like sample_db;
     db_known_address := db_known_address sample_db;
     db_pubkeyget := db_pubkeyget sample_db;
     db_get_address_range := db_get_address_range sample_db |}.

(** * Properties *)

(** Runs the monadic operations of a handler down to the worlds they build. *)
Ltac run_handler :=
  cbv [mbind M_bind mret M_ret try_except receive lift emit send log raise
       block_height_max fetchall fetchone _execute_param];
  cbn.

Lemma storage_events_extend (w w' : world) (extra : list event) :
  w_trace w' = (w_trace w ++ extra)%list →
  storage_events w' = (storage_events w ++ List.filter is_storage_event extra)%list.
Proof. unfold storage_events. intros ->. apply List.filter_app. Qed.

Lemma sent_extend (w w' : world) (extra : list event) :
  w_trace w' = (w_trace w ++ extra)%list →
  sent w' = (sent w ++ sent (session_trace extra))%list.
Proof. unfold sent. intros ->. apply omap_app. Qed.

(** ** The dispatcher *)

Lemma dispatch_unknown (attributes : string → option attribute) (method : string)
    (db_handler : DbHandler) (peers : Peers) (w : world) :
  attributes method = None →
  dispatch attributes method db_handler peers w =
  (Return (RetBool false),
   World (w_inbox w) (w_cursor w)
     (w_trace w ++ [EvLog Warning (LogStr ("Exception calling method " +:+ method +:+ ": " +:+
        "'ApiHandler' object has no attribute '" +:+ method +:+ "'"))])).
Proof.
  intros Hnone. unfold dispatch, py_getattr. rewrite Hnone. reflexivity.
Qed.

Lemma dispatch_handler_raises (attributes : string → option attribute) (method : string)
    (db_handler : DbHandler) (peers : Peers) (w w1 : world)
    (call : DbHandler → Peers → M retval) (e : exc) :
  attributes method = Some (AttrCallable call) →
  call db_handler peers w = (Raise e, w1) →
  dispatch attributes method db_handler peers w =
  (Return (RetBool false),
   World (w_inbox w1) (w_cursor w1)
     (w_trace w1 ++ [EvLog Warning (LogStr ("Exception calling method " +:+ method +:+ ": " +:+ exc_msg e))])).
Proof.
  intros Hattr Hcall. unfold dispatch, py_getattr, py_call. rewrite Hattr.
  run_handler. rewrite Hcall. reflexivity.
Qed.

Lemma dispatch_handler_returns (attributes : string → option attribute) (method : string)
    (db_handler : DbHandler) (peers : Peers) (w w1 : world)
    (call : DbHandler → Peers → M retval) (result : retval) :
  attributes method = Some (AttrCallable call) →
  call db_handler peers w = (Return result, w1) →
  dispatch attributes method db_handler peers w = (Return result, w1).
Proof.
  intros Hattr Hcall. unfold dispatch, py_getattr, py_call. rewrite Hattr.
  run_handler. rewrite Hcall. reflexivity.
Qed.

Lemma dispatch_total (attributes : string → option attribute) (method : string)
    (db_handler : DbHandler) (peers : Peers) (w : world) :
  ∃ result w', dispatch attributes method db_handler peers w = (Return result, w').
Proof.
  unfold dispatch, py_getattr, py_call.
  destruct (attributes method) as [[| type_of | call] |]; run_handler; eauto.
  destruct (call db_handler peers w) as [[result | e] w1]; eauto.
Qed.

Lemma dispatch_not_callable (attributes : string → option attribute) (method : string)
    (db_handler : DbHandler) (peers : Peers) (w : world) :
  (∀ call, attributes method ≠ Some (AttrCallable call)) →
  ∃ msg,
    dispatch attributes method db_handler peers w =
    (Return (RetBool false),
     World (w_inbox w) (w_cursor w) (w_trace w ++ [EvLog Warning (LogStr msg)])).
Proof.
  intros Hnot. unfold dispatch, py_getattr, py_call.
  destruct (attributes method) as [[| type_of | call] |]; run_handler;
    [eexists; reflexivity | eexists; reflexivity | | eexists; reflexivity].
  destruct (Hnot call eq_refl).
Qed.

(** C1: [dispatch] never raises to its caller, whatever the name and the
    context.  A name that does not resolve to a handler logs one warning and
    yields [False], without reading from the session; for a name that resolves
    to nothing the warning carries the name.  A handler that raises has its
    exception caught, one warning logged with the name of the handler and the
    message of the error, and [False] is the result.  A handler that returns
    has its result passed on.  From the world that is left, any further
    command is dispatched the same way. *)
Theorem dispatch_contains_failures (attributes : string → option attribute) (method : string)
    (db_handler : DbHandler) (peers : Peers) (w : world) :
  ∃ result w',
    dispatch attributes method db_handler peers w = (Return result, w') ∧
    ((∀ call, attributes method ≠ Some (AttrCallable call)) →
       result = RetBool false ∧ truthy result = false ∧
       w_inbox w' = w_inbox w ∧
       ∃ msg, w_trace w' = w_trace w ++ [EvLog Warning (LogStr msg)]) ∧
    (attributes method = None →
       w_trace w' =
         w_trace w ++
         [EvLog Warning (LogStr ("Exception calling method " +:+ method +:+ ": " +:+
            "'ApiHandler' object has no attribute '" +:+ method +:+ "'"))]) ∧
    (∀ call e w1,
       attributes method = Some (AttrCallable call) →
       call db_handler peers w = (Raise e, w1) →
       result = RetBool false ∧ truthy result = false ∧
       w_inbox w' = w_inbox w1 ∧
       w_trace w' =
         w_trace w1 ++
         [EvLog Warning (LogStr ("Exception calling method " +:+ method +:+ ": " +:+ exc_msg e))]) ∧
    (∀ call result1 w1,
       attributes method = Some (AttrCallable call) →
       call db_handler peers w = (Return result1, w1) →
       result = result1 ∧ w' = w1) ∧
    (∀ method' db_handler' peers',
       ∃ result' w'', dispatch attributes method' db_handler' peers' w' = (Return result', w'')).
Proof.
  destruct (dispatch_total attributes method db_handler peers w) as (result & w' & Hrun).
  exists result, w'. split; [exact Hrun |]. split; [| split; [| split; [| split]]].
  - intros Hnot.
    destruct (dispatch_not_callable _ _ db_handler peers w Hnot) as [msg Hmsg].
    rewrite Hmsg in Hrun. inversion Hrun; subst. cbn. eauto.
  - intros Hnone. rewrite (dispatch_unknown _ _ _ _ _ Hnone) in Hrun.
    inversion Hrun; subst. reflexivity.
  - intros call e w1 Hattr Hcall.
    rewrite (dispatch_handler_raises _ _ _ _ _ _ _ _ Hattr Hcall) in Hrun.
    inversion Hrun; subst. cbn. eauto.
  - intros call result1 w1 Hattr Hcall.
    rewrite (dispatch_handler_returns _ _ _ _ _ _ _ _ Hattr Hcall) in Hrun.
    inversion Hrun; subst. split; reflexivity.
  - intros method' db_handler' peers'. apply dispatch_total.
Qed.

(** After an unknown command the session serves the next command: the
    keepalive is answered. *)
Example dispatch_unknown_then_ping :
  let attributes := class_attributes (sample_self true) (λ _, None) in
  let '(_, w) := dispatch attributes "api_nosuch" sample_db sample_peers (session []) in
  let '(result, w') := dispatch attributes "api_ping" sample_db sample_peers w in
  result = Return RetNone ∧ sent w' = [RStr "api_pong"].
Proof. vm_compute. split; reflexivity. Qed.

(** A handler that raises is contained, a disabled command for instance. *)
Example dispatch_disabled_command :
  dispatch (class_attributes (sample_self true) (λ _, None)) "api_gettransaction"
    sample_db sample_peers (session [PVal (SStr "txid")]) =
  (Return (RetBool false),
   World [PVal (SStr "txid")] []
     [EvLog Warning (LogStr "Exception calling method api_gettransaction: Do not use yet - Rewrite")]).
Proof. reflexivity. Qed.

(** ** Disabled operations *)


(** ** Address info *)

(** C9: for an address that the validator rejects, the answer is
    [{known: False, pubkey: ''}] and storage is not consulted: the only things
    done are the log line and the answer. *)
Theorem getaddressinfo_invalid_address (self : ApiHandler) (db_handler : DbHandler)
    (peers : Peers) (address : string) (w : world) (rest : list pyval) :
  w_inbox w = PVal (SStr address) :: rest →
  address_is_valid self (PVal (SStr address)) = Return false →
  ∃ w',
    api_getaddressinfo self db_handler peers w = (Return RetNone, w') ∧
    w_trace w' =
      (w_trace w ++
       [EvLog Info (LogFmt "Bad address format <{}>" [PVal (SStr address)]);
        EvSend (RInfo false "")])%list ∧
    sent w' = (sent w ++ [RInfo false ""])%list ∧
    storage_events w' = storage_events w.
Proof.
  intros Hinbox Hvalid. destruct w as [inbox cur tr]. cbn in Hinbox. subst inbox.
  unfold api_getaddressinfo. run_handler. rewrite Hvalid. cbn.
  eexists. split; [reflexivity |].
  assert (Htrace : ∀ extra : list event,
            ((tr ++ [EvLog Info (LogFmt "Bad address format <{}>" [PVal (SStr address)])]) ++ extra
             = tr ++ EvLog Info (LogFmt "Bad address format <{}>" [PVal (SStr address)]) :: extra)%list).
  { intros extra. rewrite <- app_assoc. reflexivity. }
  split; [apply Htrace | split].
  - erewrite (sent_extend (World (PVal (SStr address) :: rest) cur tr)) by apply Htrace.
    reflexivity.
  - erewrite (storage_events_extend (World (PVal (SStr address) :: rest) cur tr))
      by apply Htrace.
    apply app_nil_r.
Qed.

Lemma getaddressinfo_invalid_address_witness :
  ∃ w',
    api_getaddressinfo (sample_self true) sample_db sample_peers
      (session [PVal (SStr "not-an-address")]) = (Return RetNone, w') ∧
    w_trace w' =
      [EvLog Info (LogFmt "Bad address format <{}>" [PVal (SStr "not-an-address")]);
       EvSend (RInfo false "")] ∧
    sent w' = [RInfo false ""] ∧
    storage_events w' = [].
Proof.
  apply (getaddressinfo_invalid_address (sample_self true) sample_db sample_peers
           "not-an-address" (session [PVal (SStr "not-an-address")]) []);
    reflexivity.
Defined.

(** ** Blocks since a height *)

(** What was sent, and asked to storage, by a run that extended the trace. *)
Ltac extend_trace w :=
  first [ erewrite (sent_extend w)
            by (cbn [w_trace]; rewrite <- ?app_assoc; reflexivity)
        | erewrite (storage_events_extend w)
            by (cbn [w_trace]; rewrite <- ?app_assoc; reflexivity) ].

(** C3, counterexample: with the maximum height at 100 and transactions
    stored at heights 98 to 100, a caller whose height is 100 receives an
    empty list, so that the recent blocks are not included. *)
Lemma getblocksince_caught_up_counterexample :
  sent (api_getblocksince (sample_self true) sample_db sample_peers
          (session [PVal (SInt 100)])).2 = [RItems []] ∧
  (sample_tx 100 "alice" "carol" 100000000 1000000 0 "note" ∈ db_transactions sample_db ∧
   db_block_height_max sample_db - 10 < 100 ≤ db_block_height_max sample_db) ∧
  ¬ includes_recent_blocks (sample_self true) sample_db sample_peers 100.
Proof.
  split; [reflexivity |]. split.
  - split; [| cbn; lia]. cbn. unfold sample_txs. rewrite !elem_of_cons. tauto.
  - intros Hclaim.
    destruct (Hclaim (sample_tx 100 "alice" "carol" 100000000 1000000 0 "note"))
      as (items & Hsent & Hin).
    + cbn. unfold sample_txs. rewrite !elem_of_cons. tauto.
    + cbn. lia.
    + vm_compute in Hsent. injection Hsent as <-.
      destruct Hin as [Hin | Hin]; exact (proj1 (elem_of_nil _) Hin).
Qed.

(** C3, as amended: the answer holds exactly the transactions above
    [max(current_max_height - 11, since_height)], converted when the store is
    not a legacy one.  The height of the caller is a floor that is never
    crossed: no transaction at or below [since_height] is sent, and a caller
    whose height is the current maximum or more receives no transaction of
    the blocks up to that maximum. *)
Theorem getblocksince_returns_above_floor (self : ApiHandler) (db_handler : DbHandler)
    (peers : Peers) (since_height : Z) (w : world) (rest : list pyval) :
  w_inbox w = PVal (SInt since_height) :: rest →
  let floor := Z.max (db_block_height_max db_handler - 11) since_height in
  let rows := filter (λ r, floor < tx_block_height r) (db_transactions db_handler) in
  ∃ w',
    api_getblocksince self db_handler peers w = (Return RetNone, w') ∧
    sent w' = (sent w ++ [RItems (as_legacy self (row_tuple <$> rows))])%list ∧
    storage_events w' =
      (storage_events w ++
       [EvDbCall "block_height_max" []; EvExecute SelectTxSince [SInt floor]])%list ∧
    (∀ r, r ∈ rows ↔
          r ∈ db_transactions db_handler ∧
          db_block_height_max db_handler - 11 < tx_block_height r ∧
          since_height < tx_block_height r) ∧
    (db_block_height_max db_handler ≤ since_height →
     ∀ r, r ∈ rows → db_block_height_max db_handler < tx_block_height r).
Proof.
  intros Hinbox floor rows. destruct w as [inbox cur tr]. cbn in Hinbox. subst inbox.
  unfold api_getblocksince. run_handler.
  eexists. split; [reflexivity |]. split; [| split; [| split]].
  - extend_trace (World (PVal (SInt since_height) :: rest) cur tr). reflexivity.
  - extend_trace (World (PVal (SInt since_height) :: rest) cur tr). reflexivity.
  - intros r. subst rows floor. rewrite list_elem_of_filter. split.
    + intros [Hfloor Hin]. repeat split; [exact Hin | lia | lia].
    + intros (Hin & H1 & H2). split; [lia | exact Hin].
  - intros Hcaught r. subst rows floor. rewrite list_elem_of_filter. lia.
Qed.

Lemma getblocksince_returns_above_floor_witness :
  ∃ w',
    api_getblocksince (sample_self false) sample_db sample_peers
      (session [PVal (SInt 99)]) = (Return RetNone, w') ∧
    sent w' =
      [RItems (IFromV2 <$> (row_tuple <$>
         [sample_tx 100 "alice" "carol" 100000000 1000000 0 "note";
          sample_tx 100 "miner" "miner" 0 0 1500000000 ""]))] ∧
    storage_events w' =
      [EvDbCall "block_height_max" []; EvExecute SelectTxSince [SInt 99]] ∧
    (∀ r, r ∈ [sample_tx 100 "alice" "carol" 100000000 1000000 0 "note";
               sample_tx 100 "miner" "miner" 0 0 1500000000 ""] ↔
          r ∈ sample_txs ∧ 100 - 11 < tx_block_height r ∧ 99 < tx_block_height r) ∧
    (100 ≤ 99 →
     ∀ r, r ∈ [sample_tx 100 "alice" "carol" 100000000 1000000 0 "note";
               sample_tx 100 "miner" "miner" 0 0 1500000000 ""] →
          100 < tx_block_height r).
Proof.
  apply (getblocksince_returns_above_floor (sample_self false) sample_db sample_peers
           99 (session [PVal (SInt 99)]) []).
  reflexivity.
Defined.

(** ** Blocks since a height, filtered on the openfield *)

Lemma sql_like_any (case_sensitive : bool) (s : string) :
  sql_like case_sensitive "%" s = true.
Proof. induction s as [| x s IH]; [reflexivity | exact IH]. Qed.

Lemma like_char_eq_refl (case_sensitive : bool) (c : ascii) :
  like_char_eq case_sensitive c c = true.
Proof. unfold like_char_eq. destruct case_sensitive; apply Ascii.eqb_refl. Qed.

Lemma sql_like_literal_step (case_sensitive : bool) (c x : ascii) (pattern s : string) :
  Ascii.eqb c "%"%char = false → Ascii.eqb c "_"%char = false →
  sql_like case_sensitive (String c pattern) (String x s) =
  like_char_eq case_sensitive c x && sql_like case_sensitive pattern s.
Proof. intros H1 H2. cbn. rewrite H1, H2. reflexivity. Qed.

Lemma sql_like_literal_empty (case_sensitive : bool) (c : ascii) (pattern : string) :
  Ascii.eqb c "%"%char = false → Ascii.eqb c "_"%char = false →
  sql_like case_sensitive (String c pattern) "" = false.
Proof. intros H1 H2. cbn. rewrite H1, H2. reflexivity. Qed.

(** Without wildcard in the prefix and with case-sensitive LIKE, the pattern
    [prefix%] selects the strings that start with the prefix. *)
Lemma sql_like_prefix_exact (prefix s : string) :
  has_wildcard prefix = false →
  sql_like true (prefix +:+ "%") s = starts_with prefix s.
Proof.
  revert s. induction prefix as [| c prefix IH]; intros s Hw.
  - apply sql_like_any.
  - cbn in Hw. apply orb_false_elim in Hw as [Hw Hrest].
    apply orb_false_elim in Hw as [H1 H2].
    destruct s as [| x s].
    + apply sql_like_literal_empty; assumption.
    + change (String c prefix +:+ "%") with (String c (prefix +:+ "%")).
      rewrite sql_like_literal_step by assumption.
      cbn. rewrite IH by assumption. reflexivity.
Qed.

(** Without wildcard in the prefix, a string that starts with the prefix is
    selected, whatever the case rule. *)
Lemma sql_like_prefix_complete (case_sensitive : bool) (prefix s : string) :
  has_wildcard prefix = false →
  starts_with prefix s = true →
  sql_like case_sensitive (prefix +:+ "%") s = true.
Proof.
  revert s. induction prefix as [| c prefix IH]; intros s Hw Hs.
  - apply sql_like_any.
  - cbn in Hw. apply orb_false_elim in Hw as [Hw Hrest].
    apply orb_false_elim in Hw as [H1 H2].
    destruct s as [| x s]; [discriminate |].
    cbn in Hs. apply andb_true_iff in Hs as [Hc Hs].
    apply Ascii.eqb_eq in Hc. subst x.
    change (String c prefix +:+ "%") with (String c (prefix +:+ "%")).
    rewrite sql_like_literal_step by assumption.
    rewrite like_char_eq_refl, IH by assumption. reflexivity.
Qed.

(** C6: the caller's string is not a literal prefix.  With the string
    ["shop_"] the transaction whose openfield is ["shop:order1"] is sent,
    although no stored openfield begins with ["shop_"]: the string is bound
    to [openfield like ?] as it is, and its underscore acts as a wildcard.
    This is so under either case rule of LIKE; without case the openfield
    ["Shop:order2"] is selected as well. *)
Theorem getblockswhereoflike_wildcard_injection :
  sent (api_getblockswhereoflike (sample_self true) sample_db_case_sensitive sample_peers
          (session [PVal (SInt 0); PVal (SStr "shop_")])).2 =
    [RItems [ITuple (row_tuple (sample_tx 98 "alice" "bob" 500000000 1000000 0 "shop:order1"));
             IList [SInt 100]]] ∧
  sent (api_getblockswhereoflike (sample_self true) sample_db sample_peers
          (session [PVal (SInt 0); PVal (SStr "shop_")])).2 =
    [RItems [ITuple (row_tuple (sample_tx 98 "alice" "bob" 500000000 1000000 0 "shop:order1"));
             ITuple (row_tuple (sample_tx 99 "bob" "alice" 200000000 1000000 0 "Shop:order2"));
             IList [SInt 100]]] ∧
  prefix_window_rows sample_db_case_sensitive 0 "shop_" = [] ∧
  prefix_window_rows sample_db 0 "shop_" = [].
Proof. repeat split; reflexivity. Qed.

(** What the handler computes: the answer holds exactly the transactions of
    the window [(since_height, min(current_max_height, since_height + 1440)]]
    whose openfield matches the LIKE pattern made of the caller's string and
    one trailing [%], followed by the upper bound of the window as last
    element.  The caller's string only travels as a bound parameter of a
    statement whose text is fixed.  For a string without [%] and [_] every
    transaction of the window whose openfield starts with it is sent, and
    under case-sensitive LIKE only those. *)
Lemma getblockswhereoflike_returns_like_window (self : ApiHandler) (db_handler : DbHandler)
    (peers : Peers) (since_height : Z) (prefix : string) (w : world) (rest : list pyval) :
  w_inbox w = PVal (SInt since_height) :: PVal (SStr prefix) :: rest →
  let last := Z.min (db_block_height_max db_handler) (since_height + 1440) in
  let rows :=
    filter (λ r, since_height < tx_block_height r ∧ tx_block_height r ≤ last ∧
                 sql_like (db_case_sensitive_like db_handler) (prefix +:+ "%")
                   (tx_openfield r) = true)
           (db_transactions db_handler) in
  ∃ w',
    api_getblockswhereoflike self db_handler peers w = (Return RetNone, w') ∧
    sent w' =
      (sent w ++ [RItems (as_legacy self (row_tuple <$> rows) ++ [IList [SInt last]])%list])%list ∧
    storage_events w' =
      (storage_events w ++
       [EvDbCall "block_height_max" [];
        EvExecute SelectTxSinceOpenfieldLike
          [SInt since_height; SInt last; SStr (prefix +:+ "%")]])%list ∧
    (has_wildcard prefix = false →
     ∀ r, r ∈ prefix_window_rows db_handler since_height prefix → r ∈ rows) ∧
    (has_wildcard prefix = false → db_case_sensitive_like db_handler = true →
     rows = prefix_window_rows db_handler since_height prefix).
Proof.
  intros Hinbox last rows. destruct w as [inbox cur tr]. cbn in Hinbox. subst inbox.
  unfold api_getblockswhereoflike. run_handler.
  eexists. split; [reflexivity |]. split; [| split; [| split]].
  - extend_trace (World (PVal (SInt since_height) :: PVal (SStr prefix) :: rest) cur tr).
    reflexivity.
  - extend_trace (World (PVal (SInt since_height) :: PVal (SStr prefix) :: rest) cur tr).
    reflexivity.
  - intros Hw r. subst rows. unfold prefix_window_rows. rewrite !list_elem_of_filter.
    intros [(H1 & H2 & H3) Hin]. split; [| exact Hin].
    repeat split; [exact H1 | exact H2 |].
    apply sql_like_prefix_complete; assumption.
  - intros Hw Hcase. subst rows. unfold prefix_window_rows. rewrite Hcase.
    apply list_filter_iff. intros r. rewrite sql_like_prefix_exact by assumption.
    reflexivity.
Qed.

Lemma getblockswhereoflike_returns_like_window_witness :
  let rows :=
    filter (λ r, 0 < tx_block_height r ∧ tx_block_height r ≤ Z.min 100 (0 + 1440) ∧
                 sql_like true ("shop" +:+ "%") (tx_openfield r) = true) sample_txs in
  ∃ w',
    api_getblockswhereoflike (sample_self true) sample_db_case_sensitive sample_peers
      (session [PVal (SInt 0); PVal (SStr "shop")]) = (Return RetNone, w') ∧
    sent w' = [RItems ((ITuple <$> (row_tuple <$> rows)) ++ [IList [SInt 100]])] ∧
    storage_events w' =
      [EvDbCall "block_height_max" [];
       EvExecute SelectTxSinceOpenfieldLike [SInt 0; SInt 100; SStr "shop%"]] ∧
    (has_wildcard "shop" = false →
     ∀ r, r ∈ prefix_window_rows sample_db_case_sensitive 0 "shop" → r ∈ rows) ∧
    (has_wildcard "shop" = false → true = true →
     rows = prefix_window_rows sample_db_case_sensitive 0 "shop").
Proof.
  apply (getblockswhereoflike_returns_like_window (sample_self true) sample_db_case_sensitive
           sample_peers 0 "shop" (session [PVal (SInt 0); PVal (SStr "shop")]) []).
  reflexivity.
Defined.

(** A literal prefix on a store with the default case rule: the openfields
    that start with it in another case are selected as well. *)
Example getblockswhereoflike_sample :
  sent (api_getblockswhereoflike (sample_self true) sample_db sample_peers
          (session [PVal (SInt 0); PVal (SStr "shop")])).2 =
    [RItems [ITuple (row_tuple (sample_tx 98 "alice" "bob" 500000000 1000000 0 "shop:order1"));
             ITuple (row_tuple (sample_tx 99 "bob" "alice" 200000000 1000000 0 "Shop:order2"));
             IList [SInt 100]]].
Proof. reflexivity. Qed.

(** ** Balance and received aggregates *)

Lemma sum_list_add {A} (f g : A → Z) (l : list A) :
  sum_list (f <$> l) + sum_list (g <$> l) = sum_list ((λ x, f x + g x) <$> l).
Proof.
  induction l as [| x l IH]; [reflexivity |].
  unfold sum_list in *. cbn. rewrite <- IH. lia.
Qed.

(** [sum(a)+sum(b)] followed by [if not v: v = 0] is the sum of [a+b]. *)
Lemma or_zero_sum_add {A} (f g : A → Z) (l : list A) :
  or_zero (sql_add (sql_sum (f <$> l)) (sql_sum (g <$> l))) =
  Return (sum_list ((λ x, f x + g x) <$> l)).
Proof.
  destruct l as [| x l]; [reflexivity |].
  rewrite <- sum_list_add. reflexivity.
Qed.

Lemma or_zero_sum {A} (f : A → Z) (l : list A) :
  or_zero (sql_sum (f <$> l)) = Return (sum_list (f <$> l)).
Proof. destruct l; reflexivity. Qed.

Lemma sql_text_eq_str (column a : string) :
  sql_text_eq column (SStr a) = true ↔ column = a.
Proof. cbn. apply bool_decide_eq_true. Qed.

Lemma run_credit (db : DbHandler) (a : string) (h : Z) :
  run_statement db SelectCredit [SStr a; SInt h] =
  let rows := filter (λ r, tx_recipient r = a ∧ tx_block_height r ≤ h) (db_transactions db) in
  Return [[sql_add (sql_sum (tx_amount <$> rows)) (sql_sum (tx_reward <$> rows))]].
Proof.
  cbn -[sql_text_eq]. erewrite list_filter_iff; [reflexivity |].
  intros r. rewrite sql_text_eq_str. reflexivity.
Qed.

Lemma run_debit (db : DbHandler) (a : string) (h : Z) :
  run_statement db SelectDebit [SStr a; SInt h] =
  let rows := filter (λ r, tx_address r = a ∧ tx_block_height r ≤ h) (db_transactions db) in
  Return [[sql_add (sql_sum (tx_amount <$> rows)) (sql_sum (tx_fee <$> rows))]].
Proof.
  cbn -[sql_text_eq]. erewrite list_filter_iff; [reflexivity |].
  intros r. rewrite sql_text_eq_str. reflexivity.
Qed.

Lemma run_received (db : DbHandler) (a : string) (h : Z) :
  run_statement db SelectReceived [SStr a; SInt h] =
  let rows := filter (λ r, tx_recipient r = a ∧ tx_block_height r ≤ h) (db_transactions db) in
  Return [[sql_sum (tx_amount <$> rows)]].
Proof.
  cbn -[sql_text_eq]. erewrite list_filter_iff; [reflexivity |].
  intros r. rewrite sql_text_eq_str. reflexivity.
Qed.

Lemma get_balance_run (db_handler : DbHandler) (a : string) (minconf : Z) (w : world) :
  _get_balance db_handler (SStr a) minconf w =
  (Return (balance_of db_handler a minconf),
   World (w_inbox w) [] (w_trace w ++ balance_queries db_handler minconf a)).
Proof.
  unfold _get_balance.
  cbv [mbind M_bind mret M_ret try_except lift emit raise block_height_max fetchone
       _execute_param].
  cbn [w_inbox w_cursor w_trace fst snd].
  rewrite run_credit, run_debit. cbn [w_inbox w_cursor w_trace first_column py_index lookup].
  cbn -[filter or_zero sql_add sql_sum]. rewrite !or_zero_sum_add.
  unfold balance_of, credit_of, debit_of, balance_queries.
  rewrite <- !app_assoc. reflexivity.
Qed.

Lemma get_received_run (db_handler : DbHandler) (a : string) (minconf : Z) (w : world) :
  _get_received db_handler (SStr a) minconf w =
  (Return (received_of db_handler a minconf),
   World (w_inbox w) [] (w_trace w ++ received_queries db_handler minconf a)).
Proof.
  unfold _get_received.
  cbv [mbind M_bind mret M_ret try_except lift emit raise block_height_max fetchone
       _execute_param].
  cbn [w_inbox w_cursor w_trace fst snd].
  rewrite run_received. cbn -[filter or_zero sql_add sql_sum]. rewrite !or_zero_sum.
  unfold received_of, received_queries.
  rewrite <- !app_assoc. reflexivity.
Qed.

(** The loop over the addresses adds up what each query gives; it reads
    nothing from the session and sends nothing. *)
Lemma accumulate_run (f : scalar → M Z) (g : string → Z) (events : string → list event)
    (addresses : list string) :
  (∀ a w, f (SStr a) w = (Return (g a), World (w_inbox w) [] (w_trace w ++ events a))) →
  ∀ total w,
    ∃ cur,
      accumulate f (SStr <$> addresses) total w =
      (Return (total + total_over g addresses),
       World (w_inbox w) cur (w_trace w ++ concat (events <$> addresses))).
Proof.
  intros Hf. induction addresses as [| a addresses IH]; intros total w.
  - exists (w_cursor w). cbn. unfold total_over. cbn.
    rewrite Z.add_0_r, app_nil_r. destruct w; reflexivity.
  - cbn [fmap list_fmap accumulate]. unfold mbind, M_bind. rewrite Hf.
    destruct (IH (total + g a) (World (w_inbox w) [] (w_trace w ++ events a))) as [cur Hrun].
    exists cur. rewrite Hrun. cbn. unfold total_over, sum_list. cbn.
    rewrite <- app_assoc, Z.add_assoc. reflexivity.
Qed.

Lemma queries_send_nothing (events : string → list event) (addresses : list string) :
  (∀ a, sent (session_trace (events a)) = []) →
  sent (session_trace (concat (events <$> addresses))) = [].
Proof.
  intros Hnone. unfold sent in *. cbn in *.
  induction addresses as [| a addresses IH]; [reflexivity |].
  cbn. rewrite omap_app, Hnone, IH. reflexivity.
Qed.

Lemma py_floor_minconf (minconf : Z) :
  py_floor (PVal (SInt minconf)) 1 = Return (Z.max 1 minconf).
Proof. cbn. case_bool_decide; f_equal; lia. Qed.

(** C2: for a list of addresses and a [minconf], clamped to 1 from below,
    [api_getbalance] answers the sum over the addresses of the credit
    (amount plus reward of the transactions received up to the height
    [current_max_height - minconf]) minus the debit (amount plus fee of the
    transactions sent up to that height), divided by 1e8 unless the store is a
    legacy one. *)
Theorem getbalance_sums_balances (self : ApiHandler) (db_handler : DbHandler) (peers : Peers)
    (addresses : list string) (minconf : Z) (w : world) (rest : list pyval) :
  w_inbox w = PList (SStr <$> addresses) :: PVal (SInt minconf) :: rest →
  let depth := Z.max 1 minconf in
  let total := total_over (λ a, credit_of db_handler a depth - debit_of db_handler a depth)
                 addresses in
  ∃ w',
    api_getbalance self db_handler peers w = (Return RetNone, w') ∧
    w_inbox w' = rest ∧
    sent w' =
      (sent w ++
       [RNumber (if legacy_db self then NInt total else NTrueDiv total 100000000)])%list.
Proof.
  intros Hinbox depth total. destruct w as [inbox cur tr]. cbn in Hinbox. subst inbox.
  unfold api_getbalance.
  cbv [mbind M_bind mret M_ret try_except receive lift emit send raise].
  cbn [w_inbox w_cursor w_trace py_iter]. rewrite py_floor_minconf. fold depth.
  destruct (accumulate_run (λ address, _get_balance db_handler address depth)
              (λ a, balance_of db_handler a depth) (balance_queries db_handler depth) addresses
              (λ a w, get_balance_run db_handler a depth w) 0 (World rest cur tr))
    as [cur' Hacc].
  rewrite Hacc. cbn [w_inbox w_cursor w_trace].
  eexists. split; [reflexivity |]. split; [reflexivity |].
  rewrite (sent_extend (World rest cur' (tr ++ concat (balance_queries db_handler depth <$> addresses)))
             _ [EvSend (RNumber (to_units self (0 + total_over (λ a, balance_of db_handler a depth) addresses)))])
    by reflexivity.
  rewrite (sent_extend (World (PList (SStr <$> addresses) :: PVal (SInt minconf) :: rest) cur tr)
             _ (concat (balance_queries db_handler depth <$> addresses)))
    by reflexivity.
  rewrite queries_send_nothing by reflexivity.
  rewrite app_nil_r. reflexivity.
Qed.

Lemma getbalance_sums_balances_witness :
  ∃ w',
    api_getbalance (sample_self false) sample_db sample_peers
      (session [PList (SStr <$> ["alice"; "bob"]); PVal (SInt 0)]) = (Return RetNone, w') ∧
    w_inbox w' = [] ∧
    sent w' = [RNumber (NTrueDiv (-2000000) 100000000)].
Proof.
  apply (getbalance_sums_balances (sample_self false) sample_db sample_peers
           ["alice"; "bob"] 0
           (session [PList (SStr <$> ["alice"; "bob"]); PVal (SInt 0)]) []).
  reflexivity.
Defined.

(** C7: for a list of addresses and a [minconf], clamped to 1 from below,
    [api_getreceived] answers the sum over the addresses of the amounts of the
    transactions received up to the height [current_max_height - minconf]:
    the amounts alone, without debit, fee or reward; divided by 1e8 unless the
    store is a legacy one. *)
Theorem getreceived_sums_amounts (self : ApiHandler) (db_handler : DbHandler) (peers : Peers)
    (addresses : list string) (minconf : Z) (w : world) (rest : list pyval) :
  w_inbox w = PList (SStr <$> addresses) :: PVal (SInt minconf) :: rest →
  let depth := Z.max 1 minconf in
  let total :=
    total_over (λ a, sum_list (tx_amount <$>
      filter (λ r, tx_recipient r = a ∧
                   tx_block_height r ≤ db_block_height_max db_handler - depth)
             (db_transactions db_handler))) addresses in
  ∃ w',
    api_getreceived self db_handler peers w = (Return RetNone, w') ∧
    w_inbox w' = rest ∧
    sent w' =
      (sent w ++
       [RNumber (if legacy_db self then NInt total else NTrueDiv total 100000000)])%list.
Proof.
  intros Hinbox depth total. destruct w as [inbox cur tr]. cbn in Hinbox. subst inbox.
  unfold api_getreceived.
  cbv [mbind M_bind mret M_ret try_except receive lift emit send raise].
  cbn [w_inbox w_cursor w_trace py_iter]. rewrite py_floor_minconf. fold depth.
  destruct (accumulate_run (λ address, _get_received db_handler address depth)
              (λ a, received_of db_handler a depth) (received_queries db_handler depth) addresses
              (λ a w, get_received_run db_handler a depth w) 0 (World rest cur tr))
    as [cur' Hacc].
  rewrite Hacc. cbn [w_inbox w_cursor w_trace].
  eexists. split; [reflexivity |]. split; [reflexivity |].
  rewrite (sent_extend (World rest cur' (tr ++ concat (received_queries db_handler depth <$> addresses)))
             _ [EvSend (RNumber (to_units self (0 + total_over (λ a, received_of db_handler a depth) addresses)))])
    by reflexivity.
  rewrite (sent_extend (World (PList (SStr <$> addresses) :: PVal (SInt minconf) :: rest) cur tr)
             _ (concat (received_queries db_handler depth <$> addresses)))
    by reflexivity.
  rewrite queries_send_nothing by reflexivity.
  rewrite app_nil_r. reflexivity.
Qed.

Lemma getreceived_sums_amounts_witness :
  ∃ w',
    api_getreceived (sample_self false) sample_db sample_peers
      (session [PList (SStr <$> ["alice"; "bob"]); PVal (SInt 1)]) = (Return RetNone, w') ∧
    w_inbox w' = [] ∧
    sent w' = [RNumber (NTrueDiv 700000000 100000000)].
Proof.
  apply (getreceived_sums_amounts (sample_self false) sample_db sample_peers
           ["alice"; "bob"] 1
           (session [PList (SStr <$> ["alice"; "bob"]); PVal (SInt 1)]) []).
  reflexivity.
Defined.

(** ** The block-grouping adapter *)

Section AdapterProperties.
Context {RawTx : Type}.
Variable to_dict : RawTx → txdict.
Variable list_of_diffs : list (list scalar).

Ltac lookups :=
  repeat first [ rewrite lookup_delete_ne by discriminate | progress cbn ].

Ltac lookups_in H :=
  repeat first [ rewrite lookup_delete_ne in H by discriminate | progress cbn in H ].

Ltac split_lookup_in H :=
  match type of H with
  | context [match ?m !! ?k with Some _ => _ | None => _ end] =>
      let E := fresh "E" in
      destruct (m !! k) eqn:E; cbn in H; try discriminate H
  end.

Lemma loop_body_normal st tx h :
  normal_row h (to_dict tx) →
  loop_body to_dict list_of_diffs st tx = Return (after_normal st h (normal_view (to_dict tx))).
Proof.
  intros ((_ & _ & [x Hx] & _ & _) & Hh & Hn). unfold is_normal in Hn.
  unfold loop_body, py_getitem, py_del, after_normal, group_state, normal_view.
  rewrite Hh. lookups. rewrite Hn.
  destruct (decide (st_old st = h)); cbn;
    (rewrite decide_True by reflexivity); rewrite Hx; lookups; rewrite Hn; reflexivity.
Qed.

Lemma loop_body_mining st tx h d drest :
  mining_row h (to_dict tx) →
  list_of_diffs !! st_i st = Some (d :: drest) →
  loop_body to_dict list_of_diffs st tx = Return (after_mining st h (mining_view d (to_dict tx))).
Proof.
  intros ((_ & [r Hr] & _ & [a Ha] & [m Hm]) & Hh & Hn) Hd. unfold is_normal in Hn.
  unfold loop_body, py_getitem, py_del, py_index, after_mining, group_state, mining_view.
  rewrite Hh. lookups. rewrite Hr.
  destruct (decide (st_old st = h)); cbn;
    (rewrite decide_False by congruence); rewrite Ha; lookups; rewrite Hm; cbn;
    rewrite Hd; reflexivity.
Qed.

(** What an iteration that does not raise has done. *)
Lemma loop_body_inv st tx st' :
  loop_body to_dict list_of_diffs st tx = Return st' →
  ∃ h, to_dict tx !! "block_height" = Some h ∧
    ((is_normal (to_dict tx) ∧ st' = after_normal st h (normal_view (to_dict tx))) ∨
     (¬ is_normal (to_dict tx) ∧ ∃ d drest,
        list_of_diffs !! st_i st = Some (d :: drest) ∧
        st' = after_mining st h (mining_view d (to_dict tx)))).
Proof.
  unfold loop_body, py_getitem, py_del, py_index, after_normal, after_mining, group_state,
    normal_view, mining_view, is_normal.
  intros Hrun.
  destruct (to_dict tx !! "block_height") as [h |] eqn:Hh; [| discriminate].
  lookups_in Hrun.
  destruct (to_dict tx !! "reward") as [r |] eqn:Hr;
    [| destruct (decide (st_old st = h)); discriminate].
  exists h. split; [reflexivity |].
  destruct (decide (st_old st = h)) as [Hold | Hold]; cbn in Hrun;
    (destruct (decide (r = SStr "0.00000000")) as [Heq | Hne]; [left | right]);
    repeat (split_lookup_in Hrun; lookups_in Hrun).
  all: try (injection Hrun as <-; split; [congruence | reflexivity]).
  all: match goal with
       | |- context [Some ?row = Some (_ :: _)] =>
           destruct row as [| d drest]; simplify_eq/=;
           split; [congruence |]; eexists _, _; split; reflexivity
       end.
Qed.

Lemma run_loop_app l1 l2 st :
  run_loop to_dict list_of_diffs (l1 ++ l2) st =
  run_loop to_dict list_of_diffs l1 st ≫= run_loop to_dict list_of_diffs l2.
Proof.
  revert st. induction l1 as [| tx l1 IH]; intros st; [reflexivity |].
  cbn. destruct (loop_body to_dict list_of_diffs st tx); [apply IH | reflexivity].
Qed.

Lemma run_loop_app_inv l1 l2 st st' :
  run_loop to_dict list_of_diffs (l1 ++ l2) st = Return st' →
  ∃ st1, run_loop to_dict list_of_diffs l1 st = Return st1 ∧
         run_loop to_dict list_of_diffs l2 st1 = Return st'.
Proof.
  rewrite run_loop_app.
  destruct (run_loop to_dict list_of_diffs l1 st) as [st1 |]; [| discriminate].
  intros Hrun. exists st1. split; [reflexivity | exact Hrun].
Qed.

Lemma run_loop_cons_inv tx txs st st' :
  run_loop to_dict list_of_diffs (tx :: txs) st = Return st' →
  ∃ st1, loop_body to_dict list_of_diffs st tx = Return st1 ∧
         run_loop to_dict list_of_diffs txs st1 = Return st'.
Proof.
  cbn. destruct (loop_body to_dict list_of_diffs st tx) as [st1 |]; [| discriminate].
  intros Hrun. exists st1. split; [reflexivity | exact Hrun].
Qed.

Lemma mining_count_cons tx txs :
  mining_count to_dict (tx :: txs) =
  if decide (is_normal (to_dict tx)) then mining_count to_dict txs
  else S (mining_count to_dict txs).
Proof.
  unfold mining_count. rewrite filter_cons.
  destruct (decide (is_normal (to_dict tx))) as [Hn | Hn].
  - rewrite decide_False by (intros H; exact (H Hn)). reflexivity.
  - rewrite decide_True by exact Hn. reflexivity.
Qed.

(** The blocks of the result are the heights of the reward-bearing rows. *)
Lemma run_loop_keys txs st st' k :
  run_loop to_dict list_of_diffs txs st = Return st' →
  is_Some (st_blocks_dict st' !! k) ↔
  is_Some (st_blocks_dict st !! k) ∨
  ∃ tx, tx ∈ txs ∧ to_dict tx !! "block_height" = Some k ∧ ¬ is_normal (to_dict tx).
Proof.
  revert st. induction txs as [| tx txs IH]; intros st Hrun.
  - injection Hrun as <-. split; [auto |].
    intros [H | (tx & Hin & _)]; [exact H | by apply elem_of_nil in Hin].
  - apply run_loop_cons_inv in Hrun as (st1 & Hbody & Hrun).
    rewrite (IH _ Hrun).
    apply loop_body_inv in Hbody as (h & Hh & [[Hn ->] | (Hn & d & drest & Hd & ->)]); cbn.
    + split.
      * intros [H | (tx' & Hin & H)]; [auto |].
        right. exists tx'. split; [by apply list_elem_of_further | exact H].
      * intros [H | (tx' & Hin & Hh' & Hn')]; [auto |].
        apply elem_of_cons in Hin as [-> | Hin]; [contradiction |].
        right. exists tx'. auto.
    + rewrite lookup_insert_is_Some. split.
      * intros [[<- | [_ H]] | (tx' & Hin & H)].
        -- right. exists tx. split; [apply list_elem_of_here | auto].
        -- auto.
        -- right. exists tx'. split; [by apply list_elem_of_further | exact H].
      * intros [H | (tx' & Hin & Hh' & Hn')].
        -- left. destruct (decide (h = k)); [left; assumption | right; auto].
        -- apply elem_of_cons in Hin as [-> | Hin].
           ++ left. left. congruence.
           ++ right. exists tx'. auto.
Qed.

(** Well-formed rows and enough difficulties: the loop does not raise. *)
Lemma run_loop_total txs st :
  (∀ tx, tx ∈ txs → well_formed (to_dict tx)) →
  (∀ j, (st_i st ≤ j < st_i st + mining_count to_dict txs)%nat →
        ∃ d drest, list_of_diffs !! j = Some (d :: drest)) →
  ∃ st', run_loop to_dict list_of_diffs txs st = Return st'.
Proof.
  revert st. induction txs as [| tx txs IH]; intros st Hwf Hdiffs; [by eexists |].
  assert (Hwf_tx : well_formed (to_dict tx)) by (apply Hwf, list_elem_of_here).
  destruct (Hwf_tx) as ([h Hh] & _).
  rewrite mining_count_cons in Hdiffs. cbn.
  destruct (decide (is_normal (to_dict tx))) as [Hn | Hn].
  - rewrite (loop_body_normal st tx h) by done. cbn.
    apply IH; [intros; by apply Hwf, list_elem_of_further |].
    intros j Hj. apply Hdiffs. exact Hj.
  - destruct (Hdiffs (st_i st)) as (d & drest & Hd); [lia |].
    rewrite (loop_body_mining st tx h d drest) by done. cbn.
    apply IH; [intros; by apply Hwf, list_elem_of_further |].
    intros j Hj. apply Hdiffs. cbn in Hj. lia.
Qed.

(** Rows of other heights leave the block at height [h] as it is. *)
Lemma run_loop_other_heights h txs st st' :
  (∀ tx, tx ∈ txs → to_dict tx !! "block_height" ≠ Some h) →
  run_loop to_dict list_of_diffs txs st = Return st' →
  st_blocks_dict st' !! h = st_blocks_dict st !! h ∧
  st_i st' = (st_i st + mining_count to_dict txs)%nat ∧
  (fresh_for h st → fresh_for h st').
Proof.
  revert st. induction txs as [| tx txs IH]; intros st Hother Hrun.
  - injection Hrun as <-. unfold mining_count. cbn. split; [done | split; [lia | done]].
  - apply run_loop_cons_inv in Hrun as (st1 & Hbody & Hrun).
    destruct (IH st1) as (Hblocks & Hi & Hfresh);
      [intros; by apply Hother, list_elem_of_further | exact Hrun |].
    assert (Hne : to_dict tx !! "block_height" ≠ Some h) by apply Hother, list_elem_of_here.
    rewrite mining_count_cons.
    apply loop_body_inv in Hbody as (h' & Hh & [[Hn ->] | (Hn & d & drest & Hd & ->)]);
      cbn in *.
    + rewrite decide_True by exact Hn. split; [exact Hblocks | split; [exact Hi |]].
      intros _. apply Hfresh. left. cbn. congruence.
    + rewrite decide_False by exact Hn.
      rewrite lookup_insert_ne in Hblocks by congruence.
      split; [exact Hblocks | split; [lia |]].
      intros _. apply Hfresh. left. cbn. congruence.
Qed.

Lemma group_state_fresh h st :
  fresh_for h st → group_state st h = (∅, []).
Proof.
  unfold group_state. intros [Hold | [Hb Hn]].
  - rewrite decide_False by exact Hold. reflexivity.
  - destruct (decide (st_old st = h)); [rewrite Hb, Hn |]; reflexivity.
Qed.

Lemma fresh_for_init h : fresh_for h loop_init.
Proof. right. split; reflexivity. Qed.

(** The normal rows of a block are collected in order. *)
Lemma run_loop_normals h txs st :
  (∀ tx, tx ∈ txs → normal_row h (to_dict tx)) →
  ∃ st',
    run_loop to_dict list_of_diffs txs st = Return st' ∧
    st_i st' = st_i st ∧ st_blocks_dict st' = st_blocks_dict st ∧
    group_state st' h =
      ((group_state st h).1, (group_state st h).2 ++ (normal_view ∘ to_dict <$> txs)).
Proof.
  revert st. induction txs as [| tx txs IH]; intros st Hrows.
  - exists st. rewrite app_nil_r. by destruct (group_state st h).
  - cbn. rewrite (loop_body_normal st tx h) by apply Hrows, list_elem_of_here. cbn.
    destruct (IH (after_normal st h (normal_view (to_dict tx)))) as (st' & Hrun & Hi & Hb & Hg);
      [intros; by apply Hrows, list_elem_of_further |].
    exists st'. split; [exact Hrun | split; [exact Hi | split; [exact Hb |]]].
    rewrite Hg. unfold group_state at 1 2. cbn. rewrite decide_True by reflexivity. cbn.
    rewrite <- app_assoc. reflexivity.
Qed.

(** The block of a group: its reward-bearing row with the difficulty of its
    rank, and the normal rows that come before it. *)
Lemma run_loop_group h pre before m after post d drest st' :
  (∀ tx, tx ∈ pre → to_dict tx !! "block_height" ≠ Some h) →
  (∀ tx, tx ∈ post → to_dict tx !! "block_height" ≠ Some h) →
  (∀ tx, tx ∈ before → normal_row h (to_dict tx)) →
  (∀ tx, tx ∈ after → normal_row h (to_dict tx)) →
  mining_row h (to_dict m) →
  list_of_diffs !! mining_count to_dict pre = Some (d :: drest) →
  run_loop to_dict list_of_diffs (pre ++ before ++ [m] ++ after ++ post) loop_init
    = Return st' →
  st_blocks_dict st' !! h =
    Some (block_of (mining_view d (to_dict m)) (normal_view ∘ to_dict <$> before)).
Proof.
  intros Hpre Hpost Hbefore Hafter Hm Hd Hrun.
  apply run_loop_app_inv in Hrun as (st1 & Hrun1 & Hrun).
  apply (run_loop_other_heights h) in Hrun1 as (_ & Hi1 & Hfresh1); [| exact Hpre].
  specialize (Hfresh1 (fresh_for_init h)). cbn in Hi1.
  apply run_loop_app_inv in Hrun as (st2 & Hrun2 & Hrun).
  destruct (run_loop_normals h before st1 Hbefore) as (st2' & Hrun2' & Hi2 & _ & Hg2).
  rewrite Hrun2 in Hrun2'. injection Hrun2' as <-.
  rewrite (group_state_fresh h st1 Hfresh1) in Hg2. cbn in Hg2.
  apply run_loop_app_inv in Hrun as (st3 & Hrun3 & Hrun).
  cbn in Hrun3. rewrite (loop_body_mining st2 m h d drest) in Hrun3;
    [| exact Hm | rewrite Hi2, Hi1; exact Hd].
  cbn in Hrun3. injection Hrun3 as <-.
  apply run_loop_app_inv in Hrun as (st4 & Hrun4 & Hrun).
  destruct (run_loop_normals h after (after_mining st2 h (mining_view d (to_dict m))) Hafter)
    as (st4' & Hrun4' & _ & Hb4 & _).
  rewrite Hrun4 in Hrun4'. injection Hrun4' as <-.
  apply (run_loop_other_heights h) in Hrun as (Hblocks & _ & _); [| exact Hpost].
  rewrite Hblocks, Hb4. cbn. rewrite lookup_insert_eq, Hg2. reflexivity.
Qed.
End AdapterProperties.

Lemma mining_view_fields (difficulty : scalar) (d : txdict) :
  mining_view difficulty d !! "difficulty" = Some difficulty ∧
  mining_view difficulty d !! "address" = None ∧
  mining_view difficulty d !! "amount" = None.
Proof.
  unfold mining_view. repeat split.
  - apply lookup_insert_eq.
  - rewrite lookup_insert_ne by discriminate. rewrite lookup_delete_ne by discriminate.
    apply lookup_delete_eq.
  - rewrite lookup_insert_ne by discriminate. apply lookup_delete_eq.
Qed.

Lemma normal_view_fields (d : txdict) :
  normal_view d !! "block_hash" = None ∧ normal_view d !! "reward" = None.
Proof.
  unfold normal_view. split.
  - rewrite lookup_delete_ne by discriminate. apply lookup_delete_eq.
  - apply lookup_delete_eq.
Qed.

(** C5: on two normal rows and the reward row of height 1 followed by the
    reward row of height 2, the adapter yields the block of height 1 with the
    third row as mining transaction and the first two rows as transactions,
    and the block of height 2 with the fourth row and no transaction.  A
    mining transaction carries the difficulty of its block and has lost
    [address] and [amount]; a normal transaction has lost [block_hash] and
    [reward]. *)
Theorem blocktojsondiffs_groups_example {RawTx : Type} (to_dict : RawTx → txdict)
    (tx1 tx2 tx3 tx4 : RawTx) (d1 d2 : scalar) (rest1 rest2 : list scalar)
    (more : list (list scalar)) :
  normal_row (SInt 1) (to_dict tx1) →
  normal_row (SInt 1) (to_dict tx2) →
  mining_row (SInt 1) (to_dict tx3) →
  mining_row (SInt 2) (to_dict tx4) →
  blocktojsondiffs to_dict [tx1; tx2; tx3; tx4] ((d1 :: rest1) :: (d2 :: rest2) :: more) =
    Return {[ SInt 1 := block_of (mining_view d1 (to_dict tx3))
                          [normal_view (to_dict tx1); normal_view (to_dict tx2)];
              SInt 2 := block_of (mining_view d2 (to_dict tx4)) [] ]} ∧
  (∀ d tx, mining_view d (to_dict tx) !! "difficulty" = Some d ∧
           mining_view d (to_dict tx) !! "address" = None ∧
           mining_view d (to_dict tx) !! "amount" = None) ∧
  (∀ tx, normal_view (to_dict tx) !! "block_hash" = None ∧
         normal_view (to_dict tx) !! "reward" = None).
Proof.
  intros H1 H2 H3 H4. split; [| split].
  - unfold blocktojsondiffs. cbn [run_loop].
    erewrite loop_body_normal by eassumption. cbn [mbind outcome_bind].
    erewrite loop_body_normal by eassumption. cbn [mbind outcome_bind].
    erewrite loop_body_mining by (eassumption || reflexivity). cbn [mbind outcome_bind].
    erewrite loop_body_mining by (eassumption || reflexivity). cbn [mbind outcome_bind].
    reflexivity.
  - intros d tx. apply mining_view_fields.
  - intros tx. apply normal_view_fields.
Qed.

Lemma blocktojsondiffs_groups_example_witness :
  blocktojsondiffs legacy_to_dict [row1; row2; row3; row4] [[SStr "105.1"]; [SStr "105.2"]] =
    Return {[ SInt 1 := block_of (mining_view (SStr "105.1") (legacy_to_dict row3))
                          [normal_view (legacy_to_dict row1); normal_view (legacy_to_dict row2)];
              SInt 2 := block_of (mining_view (SStr "105.2") (legacy_to_dict row4)) [] ]} ∧
  (∀ d tx, mining_view d (legacy_to_dict tx) !! "difficulty" = Some d ∧
           mining_view d (legacy_to_dict tx) !! "address" = None ∧
           mining_view d (legacy_to_dict tx) !! "amount" = None) ∧
  (∀ tx, normal_view (legacy_to_dict tx) !! "block_hash" = None ∧
         normal_view (legacy_to_dict tx) !! "reward" = None).
Proof.
  apply (blocktojsondiffs_groups_example legacy_to_dict row1 row2 row3 row4).
  - repeat split; eexists; reflexivity.
  - repeat split; eexists; reflexivity.
  - repeat split; try (eexists; reflexivity). vm_compute. discriminate.
  - repeat split; try (eexists; reflexivity). vm_compute. discriminate.
Defined.

(** C10: on well-formed rows, with a difficulty for every reward-bearing row,
    the adapter returns a dict that has an entry at a height exactly when a
    reward-bearing row of that height is part of the input.  A group made of
    normal rows only has no entry.  For a group of rows of one height, set
    apart from the other rows of that height, with one reward-bearing row, the
    transactions of the block are the normal rows that come before that row:
    those that come after it are left out. *)
Theorem blocktojsondiffs_reward_groups_only {RawTx : Type} (to_dict : RawTx → txdict)
    (list_of_txs : list RawTx) (list_of_diffs : list (list scalar)) :
  (∀ tx, tx ∈ list_of_txs → well_formed (to_dict tx)) →
  (∀ j, (j < mining_count to_dict list_of_txs)%nat →
        ∃ d drest, list_of_diffs !! j = Some (d :: drest)) →
  ∃ blocks,
    blocktojsondiffs to_dict list_of_txs list_of_diffs = Return blocks ∧
    (∀ h, is_Some (blocks !! h) ↔
          ∃ tx, tx ∈ list_of_txs ∧ to_dict tx !! "block_height" = Some h ∧
                ¬ is_normal (to_dict tx)) ∧
    (∀ h, (∀ tx, tx ∈ list_of_txs → to_dict tx !! "block_height" = Some h →
                 is_normal (to_dict tx)) →
          blocks !! h = None) ∧
    (∀ h pre before m after post d drest,
       list_of_txs = pre ++ before ++ [m] ++ after ++ post →
       (∀ tx, tx ∈ pre ++ post → to_dict tx !! "block_height" ≠ Some h) →
       (∀ tx, tx ∈ before ++ after →
              to_dict tx !! "block_height" = Some h ∧ is_normal (to_dict tx)) →
       to_dict m !! "block_height" = Some h → ¬ is_normal (to_dict m) →
       list_of_diffs !! mining_count to_dict pre = Some (d :: drest) →
       blocks !! h =
         Some (block_of (mining_view d (to_dict m)) (normal_view ∘ to_dict <$> before))).
Proof.
  intros Hwf Hdiffs.
  destruct (run_loop_total to_dict list_of_diffs list_of_txs loop_init Hwf) as [st' Hrun].
  { intros j Hj. apply Hdiffs. cbn in Hj. lia. }
  exists (st_blocks_dict st'). unfold blocktojsondiffs. rewrite Hrun.
  split; [reflexivity |].
  assert (Hkeys : ∀ h, is_Some (st_blocks_dict st' !! h) ↔
            ∃ tx, tx ∈ list_of_txs ∧ to_dict tx !! "block_height" = Some h ∧
                  ¬ is_normal (to_dict tx)).
  { intros h. rewrite (run_loop_keys to_dict list_of_diffs _ _ _ h Hrun). cbn.
    rewrite lookup_empty. split; [intros [[? [=]] | H]; exact H | auto]. }
  split; [exact Hkeys | split].
  - intros h Hall. apply eq_None_not_Some. rewrite Hkeys.
    intros (tx & Hin & Hh & Hn). exact (Hn (Hall tx Hin Hh)).
  - intros h pre before m after post d drest -> Hother Hnormal Hh Hn Hd.
    assert (Hrow : ∀ tx, tx ∈ before ++ after → normal_row h (to_dict tx)).
    { intros tx Hin. destruct (Hnormal tx Hin) as [Hh' Hn'].
      split; [| split; assumption].
      apply Hwf. rewrite !elem_of_app. rewrite elem_of_app in Hin. tauto. }
    apply (run_loop_group to_dict list_of_diffs h pre before m after post d drest st');
      try assumption.
    + intros tx Hin. apply Hother. rewrite elem_of_app. auto.
    + intros tx Hin. apply Hother. rewrite elem_of_app. auto.
    + intros tx Hin. apply Hrow. rewrite elem_of_app. auto.
    + intros tx Hin. apply Hrow. rewrite elem_of_app. auto.
    + split; [| split; assumption].
      apply Hwf. rewrite !elem_of_app, elem_of_cons. tauto.
Qed.

Lemma blocktojsondiffs_reward_groups_only_witness :
  ∃ blocks,
    blocktojsondiffs legacy_to_dict late_rows [[SStr "105.1"]; [SStr "105.2"]] = Return blocks ∧
    (∀ h, is_Some (blocks !! h) ↔
          ∃ tx, tx ∈ late_rows ∧ legacy_to_dict tx !! "block_height" = Some h ∧
                ¬ is_normal (legacy_to_dict tx)) ∧
    (∀ h, (∀ tx, tx ∈ late_rows → legacy_to_dict tx !! "block_height" = Some h →
                 is_normal (legacy_to_dict tx)) →
          blocks !! h = None) ∧
    (∀ h pre before m after post d drest,
       late_rows = pre ++ before ++ [m] ++ after ++ post →
       (∀ tx, tx ∈ pre ++ post → legacy_to_dict tx !! "block_height" ≠ Some h) →
       (∀ tx, tx ∈ before ++ after →
              legacy_to_dict tx !! "block_height" = Some h ∧ is_normal (legacy_to_dict tx)) →
       legacy_to_dict m !! "block_height" = Some h → ¬ is_normal (legacy_to_dict m) →
       [[SStr "105.1"]; [SStr "105.2"]] !! mining_count legacy_to_dict pre = Some (d :: drest) →
       blocks !! h =
         Some (block_of (mining_view d (legacy_to_dict m))
                 (normal_view ∘ legacy_to_dict <$> before))).
Proof.
  apply (blocktojsondiffs_reward_groups_only legacy_to_dict late_rows
           [[SStr "105.1"]; [SStr "105.2"]]).
  - intros tx Hin. unfold late_rows in Hin. rewrite !elem_of_cons, elem_of_nil in Hin.
    destruct Hin as [-> | [-> | [-> | [-> | [-> | []]]]]]; repeat split; eexists; reflexivity.
  - intros j Hj. vm_compute in Hj.
    destruct j as [| [| j]]; [do 2 eexists; reflexivity | do 2 eexists; reflexivity | lia].
Defined.

(** The rows of the witness: the normal row that follows the reward row of
    block 1 is left out, and block 3, which has no reward row, is absent. *)
Example blocktojsondiffs_late_rows :
  blocktojsondiffs legacy_to_dict late_rows [[SStr "105.1"]; [SStr "105.2"]] =
  Return {[ SInt 1 := block_of (mining_view (SStr "105.1") (legacy_to_dict row3))
                        [normal_view (legacy_to_dict row1)];
            SInt 2 := block_of (mining_view (SStr "105.2") (legacy_to_dict row4)) [] ]}.
Proof. vm_compute. reflexivity. Qed.

(** ** Range caps *)

#[global] Instance height_le_total : Total height_le.
Proof. intros r1 r2. unfold height_le. lia. Qed.

Lemma py_cap_min (limit cap : Z) :
  py_cap (PVal (SInt limit)) cap = Return (Z.min limit cap).
Proof. cbn. case_bool_decide; f_equal; lia. Qed.









(** A caller who asks for 10000 entries of a ledger of three blocks. *)
Example getblockrange_sample :
  ∃ blocks,
    sent (api_getblockrange (sample_self false) sample_db sample_peers
            (session [PVal (SInt 98); PVal (SInt 10000)])).2 = [RJson blocks] ∧
    dom blocks = {[SInt 98; SInt 99; SInt 100]}.
Proof. eexists. split; [vm_compute; reflexivity |]. vm_compute. reflexivity. Qed.

Example getaddressrange_sample :
  sent (api_getaddressrange sample_db sample_peers
          (session [PVal (SStr "alice"); PVal (SInt 99); PVal (SInt 10000)])).2 =
  [RBlocksDict (row_tuple <$>
     [sample_tx 99 "bob" "alice" 200000000 1000000 0 "Shop:order2";
      sample_tx 100 "alice" "carol" 100000000 1000000 0 "note"])].
Proof. vm_compute. reflexivity. Qed.

Example getaddresssince_sample :
  sent (api_getaddresssince (sample_self true) sample_db sample_peers
          (session [PVal (SInt 0); PVal (SInt 1); PVal (SStr "alice")])).2 =
  [RAddressSince 99 1 (ITuple <$> (row_tuple <$>
     [sample_tx 98 "alice" "bob" 500000000 1000000 0 "shop:order1";
      sample_tx 99 "bob" "alice" 200000000 1000000 0 "Shop:order2"]))].
Proof. vm_compute. reflexivity. Qed.

(** * Further properties *)

(** ** The adapter on ledgers that are not well formed *)

Section AdapterErrors.
Context {RawTx : Type}.
Variable to_dict : RawTx → txdict.
Variable list_of_diffs : list (list scalar).

(** A reward-bearing row when the difficulties are used up. *)
Lemma loop_body_no_difficulty st tx h :
  mining_row h (to_dict tx) →
  list_of_diffs !! st_i st = None →
  loop_body to_dict list_of_diffs st tx = Raise (Exc IndexError "list index out of range").
Proof.
  intros ((_ & [r Hr] & _ & [a Ha] & [m Hm]) & Hh & Hn) Hd. unfold is_normal in Hn.
  unfold loop_body, py_getitem, py_del, py_index.
  rewrite Hh. cbn. rewrite !lookup_delete_ne by discriminate. rewrite Hr. cbn.
  destruct (decide (st_old st = h)); cbn;
    (rewrite decide_False by congruence); rewrite Ha; cbn;
    rewrite !lookup_delete_ne by discriminate; rewrite Hm; cbn;
    rewrite Hd; reflexivity.
Qed.

(** Rows with more reward-bearing rows than difficulties are left: the loop
    stops at the first reward-bearing row without one. *)
Lemma run_loop_short_diffs txs st :
  (∀ tx, tx ∈ txs → well_formed (to_dict tx)) →
  (∀ row, row ∈ list_of_diffs → row ≠ []) →
  (st_i st ≤ length list_of_diffs < st_i st + mining_count to_dict txs)%nat →
  run_loop to_dict list_of_diffs txs st = Raise (Exc IndexError "list index out of range").
Proof.
  intros Hwf Hrows. revert st Hwf.
  induction txs as [| tx txs IH]; intros st Hwf Hshort.
  - unfold mining_count in Hshort. cbn in Hshort. lia.
  - assert (Hwf_tx : well_formed (to_dict tx)) by (apply Hwf, list_elem_of_here).
    destruct (Hwf_tx) as ([h Hh] & _).
    rewrite mining_count_cons in Hshort. cbn.
    destruct (decide (is_normal (to_dict tx))) as [Hn | Hn].
    + rewrite (loop_body_normal _ _ st tx h) by done. cbn.
      apply IH; [intros; by apply Hwf, list_elem_of_further | exact Hshort].
    + destruct (list_of_diffs !! st_i st) as [row |] eqn:Hd.
      * destruct row as [| d drest].
        { apply list_elem_of_lookup_2 in Hd. by destruct (Hrows _ Hd). }
        rewrite (loop_body_mining _ _ st tx h d drest) by done. cbn.
        apply lookup_lt_Some in Hd.
        apply IH; [intros; by apply Hwf, list_elem_of_further | cbn; lia].
      * rewrite (loop_body_no_difficulty st tx h) by done. reflexivity.
Qed.
End AdapterErrors.

(** X1: when the difficulty rows are fewer than the reward-bearing rows,
    [blocktojsondiffs] raises [IndexError] ([list_of_diffs[i]] with [i] out of
    range) and gives no block at all. *)
Theorem blocktojsondiffs_short_of_difficulties {RawTx : Type} (to_dict : RawTx → txdict)
    (list_of_txs : list RawTx) (list_of_diffs : list (list scalar)) :
  (∀ tx, tx ∈ list_of_txs → well_formed (to_dict tx)) →
  (∀ row, row ∈ list_of_diffs → row ≠ []) →
  (length list_of_diffs < mining_count to_dict list_of_txs)%nat →
  blocktojsondiffs to_dict list_of_txs list_of_diffs =
    Raise (Exc IndexError "list index out of range").
Proof.
  intros Hwf Hrows Hshort. unfold blocktojsondiffs.
  rewrite run_loop_short_diffs; [reflexivity | assumption | assumption |]. cbn. lia.
Qed.

Section AdapterMore.
Context {RawTx : Type}.
Variable to_dict : RawTx → txdict.
Variable list_of_diffs : list (list scalar).

(** The counter [i] ends at the number of reward-bearing rows, and every one
    of them found its difficulty. *)
Lemma run_loop_counts txs st st' :
  run_loop to_dict list_of_diffs txs st = Return st' →
  st_i st' = (st_i st + mining_count to_dict txs)%nat ∧
  ((st_i st ≤ length list_of_diffs)%nat → (st_i st' ≤ length list_of_diffs)%nat).
Proof.
  revert st. induction txs as [| tx txs IH]; intros st Hrun.
  - injection Hrun as <-. unfold mining_count. cbn. split; [lia | done].
  - apply run_loop_cons_inv in Hrun as (st1 & Hbody & Hrun).
    destruct (IH st1 Hrun) as [Hi Hle]. rewrite mining_count_cons.
    apply loop_body_inv in Hbody as (h & Hh & [[Hn ->] | (Hn & d & drest & Hd & ->)]);
      cbn in *.
    + rewrite decide_True by exact Hn. split; [exact Hi | exact Hle].
    + rewrite decide_False by exact Hn. apply lookup_lt_Some in Hd.
      split; [lia |]. intros _. apply Hle. lia.
Qed.

Lemma size_list_to_set_le (l : list scalar) :
  (size (list_to_set (C:=gset scalar) l) ≤ length l)%nat.
Proof.
  induction l as [| x l IH]; [rewrite list_to_set_nil, size_empty; done |].
  rewrite list_to_set_cons, size_union_alt, size_singleton. cbn.
  assert (size (list_to_set (C:=gset scalar) l ∖ {[x]}) ≤ size (list_to_set (C:=gset scalar) l))%nat
    by (apply subseteq_size, subseteq_difference_l; reflexivity).
  lia.
Qed.

(** Two reward-bearing rows in one group: the later one makes the block. *)
Lemma run_loop_two_rewards h pre before m1 mid m2 after post d1 rest1 d2 rest2 st' :
  (∀ tx, tx ∈ pre → to_dict tx !! "block_height" ≠ Some h) →
  (∀ tx, tx ∈ post → to_dict tx !! "block_height" ≠ Some h) →
  (∀ tx, tx ∈ before → normal_row h (to_dict tx)) →
  (∀ tx, tx ∈ mid → normal_row h (to_dict tx)) →
  (∀ tx, tx ∈ after → normal_row h (to_dict tx)) →
  mining_row h (to_dict m1) → mining_row h (to_dict m2) →
  list_of_diffs !! mining_count to_dict pre = Some (d1 :: rest1) →
  list_of_diffs !! S (mining_count to_dict pre) = Some (d2 :: rest2) →
  run_loop to_dict list_of_diffs
    (pre ++ before ++ [m1] ++ mid ++ [m2] ++ after ++ post) loop_init = Return st' →
  st_blocks_dict st' !! h =
    Some (block_of (mining_view d2 (to_dict m2)) (normal_view ∘ to_dict <$> before ++ mid)).
Proof.
  intros Hpre Hpost Hbefore Hmid Hafter Hm1 Hm2 Hd1 Hd2 Hrun.
  apply run_loop_app_inv in Hrun as (st1 & Hrun1 & Hrun).
  apply (run_loop_other_heights _ _ h) in Hrun1 as (_ & Hi1 & Hfresh1); [| exact Hpre].
  specialize (Hfresh1 (fresh_for_init h)). cbn in Hi1.
  apply run_loop_app_inv in Hrun as (st2 & Hrun2 & Hrun).
  destruct (run_loop_normals to_dict list_of_diffs h before st1 Hbefore)
    as (st2' & Hrun2' & Hi2 & _ & Hg2).
  rewrite Hrun2 in Hrun2'. injection Hrun2' as <-.
  rewrite (group_state_fresh h st1 Hfresh1) in Hg2. cbn in Hg2.
  apply run_loop_app_inv in Hrun as (st3 & Hrun3 & Hrun).
  cbn in Hrun3. rewrite (loop_body_mining _ _ st2 m1 h d1 rest1) in Hrun3;
    [| exact Hm1 | rewrite Hi2, Hi1; exact Hd1].
  cbn in Hrun3. injection Hrun3 as <-.
  apply run_loop_app_inv in Hrun as (st4 & Hrun4 & Hrun).
  destruct (run_loop_normals to_dict list_of_diffs h mid
              (after_mining st2 h (mining_view d1 (to_dict m1))) Hmid)
    as (st4' & Hrun4' & Hi4 & _ & Hg4).
  rewrite Hrun4 in Hrun4'. injection Hrun4' as <-.
  unfold group_state at 2 3 in Hg4. cbn in Hg4. rewrite decide_True in Hg4 by reflexivity.
  cbn in Hg4. rewrite Hg2 in Hg4. cbn in Hg4.
  apply run_loop_app_inv in Hrun as (st5 & Hrun5 & Hrun).
  cbn in Hrun5. rewrite (loop_body_mining _ _ st4 m2 h d2 rest2) in Hrun5;
    [| exact Hm2 | rewrite Hi4; cbn; rewrite Hi2, Hi1; exact Hd2].
  cbn in Hrun5. injection Hrun5 as <-.
  apply run_loop_app_inv in Hrun as (st6 & Hrun6 & Hrun).
  destruct (run_loop_normals to_dict list_of_diffs h after
              (after_mining st4 h (mining_view d2 (to_dict m2))) Hafter)
    as (st6' & Hrun6' & _ & Hb6 & _).
  rewrite Hrun6 in Hrun6'. injection Hrun6' as <-.
  apply (run_loop_other_heights _ _ h) in Hrun as (Hblocks & _ & _); [| exact Hpost].
  rewrite Hblocks, Hb6. cbn. rewrite lookup_insert_eq, Hg4. cbn.
  f_equal. unfold block_of. rewrite fmap_app.
  rewrite (insert_insert_ne _ "mining_tx" "transactions") by discriminate.
  rewrite (insert_insert_eq _ "mining_tx"), insert_insert_eq. reflexivity.
Qed.
End AdapterMore.

Lemma blocktojsondiffs_short_of_difficulties_witness :
  blocktojsondiffs legacy_to_dict [row1; row2; row3; row4] [[SStr "105.1"]] =
    Raise (Exc IndexError "list index out of range").
Proof.
  apply (blocktojsondiffs_short_of_difficulties legacy_to_dict [row1; row2; row3; row4]
           [[SStr "105.1"]]).
  - intros t Hin. rewrite !elem_of_cons, elem_of_nil in Hin.
    destruct Hin as [-> | [-> | [-> | [-> | []]]]]; repeat split; eexists; reflexivity.
  - intros row Hin. rewrite elem_of_cons, elem_of_nil in Hin.
    destruct Hin as [-> | []]. discriminate.
  - vm_compute. lia.
Defined.

(** X3: when one run of a height holds two reward-bearing rows, the block of
    that height is the one of the later row: its mining transaction, the
    difficulty at its position, and the normal transactions of the run seen
    before it; each reward-bearing row uses up one difficulty. *)
Theorem blocktojsondiffs_last_reward_wins {RawTx : Type} (to_dict : RawTx → txdict)
    (list_of_txs : list RawTx) (list_of_diffs : list (list scalar)) :
  (∀ tx, tx ∈ list_of_txs → well_formed (to_dict tx)) →
  (∀ j, (j < mining_count to_dict list_of_txs)%nat →
        ∃ d drest, list_of_diffs !! j = Some (d :: drest)) →
  ∃ blocks,
    blocktojsondiffs to_dict list_of_txs list_of_diffs = Return blocks ∧
    ∀ h pre before m1 mid m2 after post d2 rest2,
      list_of_txs = pre ++ before ++ [m1] ++ mid ++ [m2] ++ after ++ post →
      (∀ tx, tx ∈ pre ++ post → to_dict tx !! "block_height" ≠ Some h) →
      (∀ tx, tx ∈ before ++ mid ++ after →
             to_dict tx !! "block_height" = Some h ∧ is_normal (to_dict tx)) →
      (∀ tx, tx ∈ [m1; m2] →
             to_dict tx !! "block_height" = Some h ∧ ¬ is_normal (to_dict tx)) →
      list_of_diffs !! S (mining_count to_dict pre) = Some (d2 :: rest2) →
      blocks !! h =
        Some (block_of (mining_view d2 (to_dict m2))
                (normal_view ∘ to_dict <$> before ++ mid)).
Proof.
  intros Hwf Hdiffs.
  destruct (run_loop_total to_dict list_of_diffs list_of_txs loop_init Hwf) as [st' Hrun].
  { intros j Hj. apply Hdiffs. cbn in Hj. lia. }
  exists (st_blocks_dict st'). unfold blocktojsondiffs. rewrite Hrun.
  split; [reflexivity |].
  intros h pre before m1 mid m2 after post d2 rest2 -> Hother Hnormal Hreward Hd2.
  assert (Hrow : ∀ tx, tx ∈ before ++ mid ++ after → normal_row h (to_dict tx)).
  { intros tx Hin. destruct (Hnormal tx Hin) as [Hh' Hn'].
    split; [| split; assumption].
    apply Hwf. rewrite !elem_of_app in Hin. rewrite !elem_of_app, !elem_of_cons. tauto. }
  assert (Hmine : ∀ tx, tx ∈ [m1; m2] → mining_row h (to_dict tx)).
  { intros tx Hin. destruct (Hreward tx Hin) as [Hh' Hn'].
    split; [| split; assumption].
    apply Hwf. rewrite !elem_of_cons, elem_of_nil in Hin.
    rewrite !elem_of_app, !elem_of_cons. tauto. }
  destruct (Hdiffs (mining_count to_dict pre)) as (d1 & rest1 & Hd1).
  { unfold mining_count. rewrite !filter_app, !length_app.
    assert (Hm1 : ¬ is_normal (to_dict m1)) by (apply Hreward; rewrite elem_of_cons; auto).
    rewrite (filter_cons _ m1). rewrite decide_True by exact Hm1. cbn. lia. }
  apply (run_loop_two_rewards to_dict list_of_diffs h pre before m1 mid m2 after post
           d1 rest1 d2 rest2 st'); try assumption.
  - intros tx Hin. apply Hother. rewrite elem_of_app. auto.
  - intros tx Hin. apply Hother. rewrite elem_of_app. auto.
  - intros tx Hin. apply Hrow. rewrite !elem_of_app. auto.
  - intros tx Hin. apply Hrow. rewrite !elem_of_app. auto.
  - intros tx Hin. apply Hrow. rewrite !elem_of_app. auto.
  - apply Hmine. rewrite elem_of_cons. auto.
  - apply Hmine. rewrite !elem_of_cons. auto.
Qed.

(** X4: when [blocktojsondiffs] returns, it gives at most one block per
    reward-bearing row, and the difficulty rows were at least as many as the
    reward-bearing rows. *)
Theorem blocktojsondiffs_block_count {RawTx : Type} (to_dict : RawTx → txdict)
    (list_of_txs : list RawTx) (list_of_diffs : list (list scalar))
    (blocks : gmap scalar blockdict) :
  blocktojsondiffs to_dict list_of_txs list_of_diffs = Return blocks →
  (size blocks ≤ mining_count to_dict list_of_txs)%nat ∧
  (mining_count to_dict list_of_txs ≤ length list_of_diffs)%nat.
Proof.
  unfold blocktojsondiffs. intros Hrun.
  destruct (run_loop _ _ _ _) as [st' |] eqn:Hloop; [| discriminate].
  injection Hrun as <-. split.
  - rewrite <- size_dom.
    set (heights := (λ tx, default SNone (to_dict tx !! "block_height")) <$>
                      filter (λ tx, ¬ is_normal (to_dict tx)) list_of_txs).
    transitivity (size (list_to_set (C:=gset scalar) heights)).
    + apply subseteq_size, elem_of_subseteq. intros k Hk. apply elem_of_dom in Hk.
      apply (run_loop_keys _ _ _ _ _ k Hloop) in Hk as [Hk | (tx & Hin & Hh & Hn)].
      * cbn in Hk. rewrite lookup_empty in Hk. by destruct Hk.
      * apply elem_of_list_to_set, list_elem_of_fmap. exists tx.
        split; [by rewrite Hh | apply list_elem_of_filter; auto].
    + etransitivity; [apply size_list_to_set_le |].
      unfold heights, mining_count. rewrite length_fmap. reflexivity.
  - destruct (run_loop_counts _ _ _ _ _ Hloop) as [Hi Hle]. cbn in Hi, Hle.
    specialize (Hle ltac:(lia)). lia.
Qed.

Lemma blocktojsondiffs_block_count_witness :
  (size ({[ SInt 1 := block_of (mining_view (SStr "105.2") (legacy_to_dict row5))
                         [normal_view (legacy_to_dict row1); normal_view (legacy_to_dict row2)];
             SInt 2 := block_of (mining_view (SStr "105.3") (legacy_to_dict row4)) [] ]}
           : gmap scalar blockdict)
     ≤ mining_count legacy_to_dict double_reward_rows)%nat ∧
  (mining_count legacy_to_dict double_reward_rows ≤ length three_diffs)%nat.
Proof.
  apply (blocktojsondiffs_block_count legacy_to_dict double_reward_rows three_diffs).
  vm_compute. reflexivity.
Defined.

Lemma blocktojsondiffs_last_reward_wins_witness :
  ∃ blocks,
    blocktojsondiffs legacy_to_dict double_reward_rows three_diffs = Return blocks ∧
    ∀ h pre before m1 mid m2 after post d2 rest2,
      double_reward_rows = pre ++ before ++ [m1] ++ mid ++ [m2] ++ after ++ post →
      (∀ tx, tx ∈ pre ++ post → legacy_to_dict tx !! "block_height" ≠ Some h) →
      (∀ tx, tx ∈ before ++ mid ++ after →
             legacy_to_dict tx !! "block_height" = Some h ∧ is_normal (legacy_to_dict tx)) →
      (∀ tx, tx ∈ [m1; m2] →
             legacy_to_dict tx !! "block_height" = Some h ∧ ¬ is_normal (legacy_to_dict tx)) →
      three_diffs !! S (mining_count legacy_to_dict pre) = Some (d2 :: rest2) →
      blocks !! h =
        Some (block_of (mining_view d2 (legacy_to_dict m2))
                (normal_view ∘ legacy_to_dict <$> before ++ mid)).
Proof.
  apply (blocktojsondiffs_last_reward_wins legacy_to_dict double_reward_rows three_diffs).
  - intros tx Hin. unfold double_reward_rows in Hin. rewrite !elem_of_cons, elem_of_nil in Hin.
    destruct Hin as [-> | [-> | [-> | [-> | [-> | []]]]]]; repeat split; eexists; reflexivity.
  - intros j Hj. vm_compute in Hj.
    destruct j as [| [| [| j]]]; [do 2 eexists; reflexivity .. | lia].
Defined.

(** The ledger of the witnesses: two reward-bearing rows at height 1. *)
Example blocktojsondiffs_double_reward :
  blocktojsondiffs legacy_to_dict double_reward_rows three_diffs =
  Return {[ SInt 1 := block_of (mining_view (SStr "105.2") (legacy_to_dict row5))
                        [normal_view (legacy_to_dict row1); normal_view (legacy_to_dict row2)];
            SInt 2 := block_of (mining_view (SStr "105.3") (legacy_to_dict row4)) [] ]}.
Proof. vm_compute. reflexivity. Qed.

(** ** Address info of a valid address *)

(** X5: for an address that the validator accepts, [api_getaddressinfo] asks
    storage whether the address is known and then for its public key, and
    answers with what it got: a failure of the first lookup gives
    [{known: False, pubkey: ''}] and skips the second, a failure of the second
    keeps what the first gave; in each case the call returns [None]. *)
Theorem getaddressinfo_valid_address (self : ApiHandler) (db_handler : DbHandler)
    (peers : Peers) (address : pyval) (w : world) (rest : list pyval) :
  w_inbox w = address :: rest →
  address_is_valid self address = Return true →
  ∃ w',
    api_getaddressinfo self db_handler peers w = (Return RetNone, w') ∧
    w_inbox w' = rest ∧
    sent w' = sent w ++ [RInfo (address_info db_handler address).1
                               (address_info db_handler address).2] ∧
    storage_events w' =
      storage_events w ++
      EvDbCall "known_address" [address] ::
      match db_known_address db_handler address with
      | Return _ => [EvDbCall "pubkeyget" [address]]
      | Raise _ => []
      end.
Proof.
  intros Hinbox Hvalid. destruct w as [inbox cur tr]. cbn in Hinbox. subst inbox.
  unfold api_getaddressinfo, address_info. run_handler. rewrite Hvalid. cbn.
  destruct (db_known_address db_handler address) as [known | e1]; cbn;
    [destruct (db_pubkeyget db_handler address) as [pubkey | e2]; cbn |].
  all: eexists; split; [reflexivity |]; split; [reflexivity |]; split.
  all: first [ extend_trace (World (address :: rest) cur tr); reflexivity ].
Qed.

Lemma getaddressinfo_valid_address_witness :
  ∃ w',
    api_getaddressinfo (sample_self true) sample_db sample_peers
      (session [PVal (SStr sample_address)]) = (Return RetNone, w') ∧
    w_inbox w' = [] ∧
    sent w' = sent (session [PVal (SStr sample_address)]) ++
              [RInfo (address_info sample_db (PVal (SStr sample_address))).1
                     (address_info sample_db (PVal (SStr sample_address))).2] ∧
    storage_events w' =
      storage_events (session [PVal (SStr sample_address)]) ++
      EvDbCall "known_address" [PVal (SStr sample_address)] ::
      match db_known_address sample_db (PVal (SStr sample_address)) with
      | Return _ => [EvDbCall "pubkeyget" [PVal (SStr sample_address)]]
      | Raise _ => []
      end.
Proof.
  apply (getaddressinfo_valid_address (sample_self true) sample_db sample_peers
           (PVal (SStr sample_address)) (session [PVal (SStr sample_address)]) []);
    reflexivity.
Defined.

(** X6: [api_getaddressinfo] never raises once it has read the address, and
    returns [None].  When the validator answers, one answer is sent; when the
    validator itself raises, the exception is logged as a warning and the
    call returns without an answer and without a storage request. *)
Theorem getaddressinfo_never_raises (self : ApiHandler) (db_handler : DbHandler)
    (peers : Peers) (address : pyval) (w : world) (rest : list pyval) :
  w_inbox w = address :: rest →
  ∃ w',
    api_getaddressinfo self db_handler peers w = (Return RetNone, w') ∧
    w_inbox w' = rest ∧
    match address_is_valid self address with
    | Return _ => ∃ known pubkey, sent w' = sent w ++ [RInfo known pubkey]
    | Raise e =>
        sent w' = sent w ∧ storage_events w' = storage_events w ∧
        w_trace w' = w_trace w ++ [EvLog Warning (LogExc e)]
    end.
Proof.
  intros Hinbox. destruct w as [inbox cur tr]. cbn in Hinbox. subst inbox.
  unfold api_getaddressinfo. run_handler.
  destruct (address_is_valid self address) as [[|] | e]; cbn.
  - destruct (db_known_address db_handler address) as [known | e1]; cbn;
      [destruct (db_pubkeyget db_handler address) as [pubkey | e2]; cbn |].
    all: eexists; split; [reflexivity |]; split; [reflexivity |].
    all: do 2 eexists; extend_trace (World (address :: rest) cur tr); reflexivity.
  - eexists. split; [reflexivity |]. split; [reflexivity |].
    exists false, "". extend_trace (World (address :: rest) cur tr). reflexivity.
  - eexists. split; [reflexivity |]. split; [reflexivity |]. split; [| split].
    + extend_trace (World (address :: rest) cur tr). apply app_nil_r.
    + extend_trace (World (address :: rest) cur tr). apply app_nil_r.
    + reflexivity.
Qed.

Lemma getaddressinfo_never_raises_witness :
  ∃ w',
    api_getaddressinfo (sample_self true) sample_db sample_peers
      (session [PList []]) = (Return RetNone, w') ∧
    w_inbox w' = [] ∧
    match address_is_valid (sample_self true) (PList []) with
    | Return _ => ∃ known pubkey, sent w' = sent (session [PList []]) ++ [RInfo known pubkey]
    | Raise e =>
        sent w' = sent (session [PList []]) ∧
        storage_events w' = storage_events (session [PList []]) ∧
        w_trace w' = w_trace (session [PList []]) ++ [EvLog Warning (LogExc e)]
    end.
Proof.
  apply (getaddressinfo_never_raises (sample_self true) sample_db sample_peers
           (PList []) (session [PList []]) []).
  reflexivity.
Defined.

(** ** Histories and pages *)

Lemma filter_none {A} (P : A → Prop) `{∀ x, Decision (P x)} (l : list A) :
  (∀ x, x ∈ l → ¬ P x) → filter P l = [].
Proof.
  induction l as [| x l IH]; intros Hnone; [reflexivity |].
  rewrite filter_cons, decide_False by (apply Hnone, list_elem_of_here).
  apply IH. intros y Hy. by apply Hnone, list_elem_of_further.
Qed.

(** X7: [api_getaddresssince] answers with the rows of the window
    [(since_height, last]] that the address sent or received, each once, by
    ascending height, where [last] is
    [min(current_max_height - min_confirmations, since_height + 720)]; a
    caller who is at or past the confirmed height gets no row, and the
    confirmed height as [last]. *)
Theorem getaddresssince_ascending_history (self : ApiHandler) (db_handler : DbHandler)
    (peers : Peers) (since_height min_confirmations : Z) (address : string) :
  let w' := (api_getaddresssince self db_handler peers
               (session [PVal (SInt since_height); PVal (SInt min_confirmations);
                         PVal (SStr address)])).2 in
  let last := Z.min (db_block_height_max db_handler - min_confirmations)
                (since_height + 720) in
  ∃ rows,
    sent w' = [RAddressSince last min_confirmations (as_legacy self (row_tuple <$> rows))] ∧
    Sorted height_le rows ∧
    rows ≡ₚ address_window db_handler since_height last address ∧
    (db_block_height_max db_handler - min_confirmations ≤ since_height →
     rows = [] ∧ last = db_block_height_max db_handler - min_confirmations).
Proof.
  intros w' last. unfold w', api_getaddresssince, session. run_handler. fold last.
  eexists. split; [reflexivity |].
  assert (Hwindow :
    filter (λ r, since_height < tx_block_height r ∧ tx_block_height r ≤ last ∧
                 bool_decide (tx_address r = address) || bool_decide (tx_recipient r = address)
                 = true) (db_transactions db_handler)
    = address_window db_handler since_height last address).
  { apply list_filter_iff. intros r.
    rewrite orb_true_iff, !bool_decide_eq_true. reflexivity. }
  rewrite Hwindow.
  split; [apply Sorted_merge_sort; apply _ |].
  split; [apply merge_sort_Permutation |].
  intros Hstalled. split; [| lia].
  unfold address_window. rewrite filter_none; [reflexivity |].
  intros r _. lia.
Qed.

Lemma getblockswhereoflike_sent (self : ApiHandler) (db_handler : DbHandler) (peers : Peers)
    (since_height : Z) (prefix : string) :
  sent (api_getblockswhereoflike self db_handler peers
          (session [PVal (SInt since_height); PVal (SStr prefix)])).2 =
  [RItems (as_legacy self (row_tuple <$> like_window db_handler since_height prefix) ++
           [IList [SInt (Z.min (db_block_height_max db_handler) (since_height + 1440))]])].
Proof. reflexivity. Qed.

(** X8: the height that closes an answer of [api_getblockswhereoflike] is the
    [since_height] of the next page: a second call with it gives rows that
    the first call did not give, and the two calls together give the matching
    rows of the heights from [since_height] (excluded) to the height that
    closes the second answer, none left out between the pages. *)
Theorem getblockswhereoflike_pagination (self : ApiHandler) (db_handler : DbHandler)
    (peers : Peers) (since_height : Z) (prefix : string) :
  let call s := sent (api_getblockswhereoflike self db_handler peers
                        (session [PVal (SInt s); PVal (SStr prefix)])).2 in
  let items s := as_legacy self (row_tuple <$> like_window db_handler s prefix) in
  let last := Z.min (db_block_height_max db_handler) (since_height + 1440) in
  let next := Z.min (db_block_height_max db_handler) (last + 1440) in
  call since_height = [RItems (items since_height ++ [IList [SInt last]])] ∧
  call last = [RItems (items last ++ [IList [SInt next]])] ∧
  (∀ r, r ∈ like_window db_handler since_height prefix →
        r ∉ like_window db_handler last prefix) ∧
  (∀ r, r ∈ like_window db_handler since_height prefix ∨
        r ∈ like_window db_handler last prefix ↔
        r ∈ db_transactions db_handler ∧
        since_height < tx_block_height r ≤ next ∧
        sql_like (db_case_sensitive_like db_handler) (prefix +:+ "%") (tx_openfield r) = true).
Proof.
  intros call items last next.
  split; [apply getblockswhereoflike_sent |]. split; [apply getblockswhereoflike_sent |].
  unfold like_window. fold last next. split.
  - intros r. rewrite !list_elem_of_filter. lia.
  - intros r. rewrite !list_elem_of_filter. split.
    + intros [((? & ? & ?) & ?) | ((? & ? & ?) & ?)]; repeat split; try assumption; lia.
    + intros (Hin & [? ?] & Hlike).
      destruct (decide (tx_block_height r ≤ last)); [left | right];
        (split; [| exact Hin]); repeat split; try assumption; lia.
Qed.

(** Two pages of the sample ledger: the heights up to 98, then 99 and 100. *)
Example getblockswhereoflike_two_pages :
  (tx_block_height <$> like_window sample_db (-1342) "") = [98; 98] ∧
  (tx_block_height <$> like_window sample_db 98 "") = [99; 99; 100; 100].
Proof. split; reflexivity. Qed.

(** ** Balances and received amounts *)

(** Iterating on a string gives its characters. *)
Lemma chars_letters (s : string) : chars s = SStr <$> letters s.
Proof. induction s as [| c s IH]; [reflexivity |]. cbn. rewrite IH. reflexivity. Qed.

(** A run of [api_getbalance]: the queries of each address in turn, then the
    answer. *)
Lemma getbalance_trace (self : ApiHandler) (db_handler : DbHandler) (peers : Peers)
    (given : pyval) (addresses : list string) (minconf : Z) (w : world) (rest : list pyval) :
  w_inbox w = given :: PVal (SInt minconf) :: rest →
  py_iter given = Return (SStr <$> addresses) →
  let depth := Z.max 1 minconf in
  ∃ cur,
    api_getbalance self db_handler peers w =
    (Return RetNone,
     World rest cur
       (w_trace w ++ concat (balance_queries db_handler depth <$> addresses) ++
        [EvSend (RNumber (to_units self
           (total_over (λ a, balance_of db_handler a depth) addresses)))])).
Proof.
  intros Hinbox Hiter depth. destruct w as [inbox cur tr]. cbn in Hinbox. subst inbox.
  unfold api_getbalance.
  cbv [mbind M_bind mret M_ret try_except receive lift emit send raise].
  cbn [w_inbox w_cursor w_trace]. rewrite py_floor_minconf, Hiter. fold depth.
  destruct (accumulate_run (λ address, _get_balance db_handler address depth)
              (λ a, balance_of db_handler a depth) (balance_queries db_handler depth) addresses
              (λ a w, get_balance_run db_handler a depth w) 0 (World rest cur tr))
    as [cur' Hacc].
  rewrite Hacc. cbn [w_inbox w_cursor w_trace]. exists cur'.
  rewrite <- app_assoc. reflexivity.
Qed.

(** A run of [api_getreceived], likewise. *)
Lemma getreceived_trace (self : ApiHandler) (db_handler : DbHandler) (peers : Peers)
    (given : pyval) (addresses : list string) (minconf : Z) (w : world) (rest : list pyval) :
  w_inbox w = given :: PVal (SInt minconf) :: rest →
  py_iter given = Return (SStr <$> addresses) →
  let depth := Z.max 1 minconf in
  ∃ cur,
    api_getreceived self db_handler peers w =
    (Return RetNone,
     World rest cur
       (w_trace w ++ concat (received_queries db_handler depth <$> addresses) ++
        [EvSend (RNumber (to_units self
           (total_over (λ a, received_of db_handler a depth) addresses)))])).
Proof.
  intros Hinbox Hiter depth. destruct w as [inbox cur tr]. cbn in Hinbox. subst inbox.
  unfold api_getreceived.
  cbv [mbind M_bind mret M_ret try_except receive lift emit send raise].
  cbn [w_inbox w_cursor w_trace]. rewrite py_floor_minconf, Hiter. fold depth.
  destruct (accumulate_run (λ address, _get_received db_handler address depth)
              (λ a, received_of db_handler a depth) (received_queries db_handler depth) addresses
              (λ a w, get_received_run db_handler a depth w) 0 (World rest cur tr))
    as [cur' Hacc].
  rewrite Hacc. cbn [w_inbox w_cursor w_trace]. exists cur'.
  rewrite <- app_assoc. reflexivity.
Qed.

Lemma queries_all_storage (events : string → list event) (addresses : list string) :
  (∀ a, List.filter is_storage_event (events a) = events a) →
  List.filter is_storage_event (concat (events <$> addresses)) = concat (events <$> addresses).
Proof.
  intros Hall. induction addresses as [| a addresses IH]; [reflexivity |].
  cbn. rewrite List.filter_app, Hall, IH. reflexivity.
Qed.

Lemma length_concat_queries (events : string → list event) (n : nat) (addresses : list string) :
  (∀ a, length (events a) = n) →
  length (concat (events <$> addresses)) = (n * length addresses)%nat.
Proof.
  intros Hn. induction addresses as [| a addresses IH]; [cbn; lia |].
  cbn. rewrite length_app, Hn, IH. lia.
Qed.

(** X9: [api_getbalance] and [api_getreceived] ask storage address by
    address, in the order given and once per occurrence: the current height
    and two sums for a balance, the current height and one sum for a received
    amount, so three and two requests per address. *)
Theorem aggregates_query_each_address (self : ApiHandler) (db_handler : DbHandler)
    (peers : Peers) (addresses : list string) (minconf : Z) (w : world) (rest : list pyval) :
  w_inbox w = PList (SStr <$> addresses) :: PVal (SInt minconf) :: rest →
  let depth := Z.max 1 minconf in
  let balance_run := (api_getbalance self db_handler peers w).2 in
  let received_run := (api_getreceived self db_handler peers w).2 in
  storage_events balance_run =
    storage_events w ++ concat (balance_queries db_handler depth <$> addresses) ∧
  storage_events received_run =
    storage_events w ++ concat (received_queries db_handler depth <$> addresses) ∧
  length (storage_events balance_run) =
    (length (storage_events w) + 3 * length addresses)%nat ∧
  length (storage_events received_run) =
    (length (storage_events w) + 2 * length addresses)%nat.
Proof.
  intros Hinbox depth balance_run received_run.
  destruct (getbalance_trace self db_handler peers _ addresses minconf w rest Hinbox eq_refl)
    as [cur1 Hbal].
  destruct (getreceived_trace self db_handler peers _ addresses minconf w rest Hinbox eq_refl)
    as [cur2 Hrec].
  assert (H1 : storage_events balance_run =
            storage_events w ++ concat (balance_queries db_handler depth <$> addresses)).
  { unfold balance_run. rewrite Hbal.
    erewrite (storage_events_extend w) by reflexivity.
    rewrite List.filter_app, queries_all_storage by reflexivity.
    cbn. rewrite app_nil_r. reflexivity. }
  assert (H2 : storage_events received_run =
            storage_events w ++ concat (received_queries db_handler depth <$> addresses)).
  { unfold received_run. rewrite Hrec.
    erewrite (storage_events_extend w) by reflexivity.
    rewrite List.filter_app, queries_all_storage by reflexivity.
    cbn. rewrite app_nil_r. reflexivity. }
  split; [exact H1 |]. split; [exact H2 |].
  rewrite H1, H2, !length_app.
  rewrite (length_concat_queries _ 3), (length_concat_queries _ 2) by reflexivity.
  split; reflexivity.
Qed.

Lemma aggregates_query_each_address_witness :
  let w := session [PList (SStr <$> ["alice"; "bob"; "alice"]); PVal (SInt 0)] in
  let balance_run := (api_getbalance (sample_self true) sample_db sample_peers w).2 in
  let received_run := (api_getreceived (sample_self true) sample_db sample_peers w).2 in
  storage_events balance_run =
    storage_events w ++ concat (balance_queries sample_db 1 <$> ["alice"; "bob"; "alice"]) ∧
  storage_events received_run =
    storage_events w ++ concat (received_queries sample_db 1 <$> ["alice"; "bob"; "alice"]) ∧
  length (storage_events balance_run) = (length (storage_events w) + 3 * 3)%nat ∧
  length (storage_events received_run) = (length (storage_events w) + 2 * 3)%nat.
Proof.
  apply (aggregates_query_each_address (sample_self true) sample_db sample_peers
           ["alice"; "bob"; "alice"] 0
           (session [PList (SStr <$> ["alice"; "bob"; "alice"]); PVal (SInt 0)]) []).
  reflexivity.
Defined.

(** X10: when the addresses parameter is one string and not a list,
    [api_getbalance] iterates on its characters: it answers the sum of the
    balances of the one-character addresses, and asks storage for each of
    them. *)
Theorem getbalance_of_a_string (self : ApiHandler) (db_handler : DbHandler) (peers : Peers)
    (address : string) (minconf : Z) (w : world) (rest : list pyval) :
  w_inbox w = PVal (SStr address) :: PVal (SInt minconf) :: rest →
  let depth := Z.max 1 minconf in
  let total := total_over (λ a, balance_of db_handler a depth) (letters address) in
  ∃ w',
    api_getbalance self db_handler peers w = (Return RetNone, w') ∧
    sent w' = sent w ++ [RNumber (to_units self total)] ∧
    storage_events w' =
      storage_events w ++ concat (balance_queries db_handler depth <$> letters address).
Proof.
  intros Hinbox depth total.
  destruct (getbalance_trace self db_handler peers _ (letters address) minconf w rest Hinbox
              (f_equal Return (chars_letters address))) as [cur Hrun].
  subst depth total. eexists. split; [exact Hrun |]. split.
  - erewrite (sent_extend w) by reflexivity. f_equal.
    unfold sent. cbn [w_trace session_trace]. rewrite omap_app.
    pose proof (queries_send_nothing (balance_queries db_handler (Z.max 1 minconf)) (letters address)
                  (λ a, eq_refl)) as Hnone.
    unfold sent in Hnone. cbn [w_trace session_trace] in Hnone. rewrite Hnone. reflexivity.
  - erewrite (storage_events_extend w) by reflexivity.
    rewrite List.filter_app, queries_all_storage by reflexivity.
    cbn. rewrite app_nil_r. reflexivity.
Qed.

Lemma getbalance_of_a_string_witness :
  ∃ w',
    api_getbalance (sample_self true) sample_db sample_peers
      (session [PVal (SStr "bob"); PVal (SInt 1)]) = (Return RetNone, w') ∧
    sent w' = [RNumber (NInt 0)] ∧
    storage_events w' = concat (balance_queries sample_db 1 <$> ["b"; "o"; "b"]).
Proof.
  apply (getbalance_of_a_string (sample_self true) sample_db sample_peers "bob" 1
           (session [PVal (SStr "bob"); PVal (SInt 1)]) []).
  reflexivity.
Defined.

(** A sum of non-negative values over fewer rows is smaller. *)
Lemma sum_list_filter_le (f : Row → Z) (P Q : Row → Prop)
    `{∀ r, Decision (P r)} `{∀ r, Decision (Q r)} (l : list Row) :
  (∀ r, r ∈ l → 0 ≤ f r) →
  (∀ r, P r → Q r) →
  0 ≤ sum_list (f <$> filter P l) ≤ sum_list (f <$> filter Q l).
Proof.
  intros Hpos Hsub. induction l as [| r l IH]; [cbn; lia |].
  assert (Hr : 0 ≤ f r) by (apply Hpos, list_elem_of_here).
  assert (IH' : 0 ≤ sum_list (f <$> filter P l) ≤ sum_list (f <$> filter Q l)).
  { apply IH. intros x Hx. apply Hpos, list_elem_of_further, Hx. }
  rewrite !filter_cons.
  destruct (decide (P r)) as [HP | HP].
  - rewrite decide_True by (apply Hsub, HP). unfold sum_list in *. cbn. lia.
  - destruct (decide (Q r)); unfold sum_list in *; cbn; lia.
Qed.

Lemma received_of_antitone (db : DbHandler) (a : string) (m1 m2 : Z) :
  (∀ r, r ∈ db_transactions db → 0 ≤ tx_amount r) →
  m1 ≤ m2 →
  0 ≤ received_of db a m2 ≤ received_of db a m1.
Proof.
  intros Hpos Hle. unfold received_of.
  apply sum_list_filter_le; [exact Hpos |]. intros r [? ?]. split; [assumption | lia].
Qed.

Lemma total_over_le (f g : string → Z) (addresses : list string) :
  (∀ a, 0 ≤ f a ≤ g a) → 0 ≤ total_over f addresses ≤ total_over g addresses.
Proof.
  intros Hle. unfold total_over, sum_list.
  induction addresses as [| a addresses IH]; [cbn; lia |].
  cbn. specialize (Hle a). lia.
Qed.

(** X11: on a ledger without negative amounts, the total that
    [api_getreceived] answers is never negative and never grows when more
    confirmations are asked for. *)
Theorem getreceived_shrinks_with_minconf (self : ApiHandler) (db_handler : DbHandler)
    (peers : Peers) (addresses : list string) (minconf1 minconf2 : Z) :
  (∀ r, r ∈ db_transactions db_handler → 0 ≤ tx_amount r) →
  minconf1 ≤ minconf2 →
  let call minconf :=
    sent (api_getreceived self db_handler peers
            (session [PList (SStr <$> addresses); PVal (SInt minconf)])).2 in
  ∃ total1 total2,
    call minconf1 = [RNumber (to_units self total1)] ∧
    call minconf2 = [RNumber (to_units self total2)] ∧
    0 ≤ total2 ≤ total1.
Proof.
  intros Hpos Hle call.
  assert (Hcall : ∀ minconf,
            call minconf =
            [RNumber (to_units self
               (total_over (λ a, received_of db_handler a (Z.max 1 minconf)) addresses))]).
  { intros minconf. unfold call.
    destruct (getreceived_trace self db_handler peers _ addresses minconf
                (session [PList (SStr <$> addresses); PVal (SInt minconf)]) []
                eq_refl eq_refl) as [cur Hrun].
    rewrite Hrun. unfold sent. cbn [snd w_trace session]. rewrite app_nil_l, omap_app.
    pose proof (queries_send_nothing (received_queries db_handler (Z.max 1 minconf)) addresses
                  (λ a, eq_refl)) as Hnone.
    unfold sent in Hnone. cbn [w_trace session_trace] in Hnone. rewrite Hnone. reflexivity. }
  do 2 eexists. split; [apply Hcall |]. split; [apply Hcall |].
  apply total_over_le. intros a. apply received_of_antitone; [exact Hpos | lia].
Qed.

Lemma getreceived_shrinks_with_minconf_witness :
  let call minconf :=
    sent (api_getreceived (sample_self true) sample_db sample_peers
            (session [PList (SStr <$> ["alice"; "bob"]); PVal (SInt minconf)])).2 in
  ∃ total1 total2,
    call 1 = [RNumber (to_units (sample_self true) total1)] ∧
    call 2 = [RNumber (to_units (sample_self true) total2)] ∧
    0 ≤ total2 ≤ total1.
Proof.
  apply (getreceived_shrinks_with_minconf (sample_self true) sample_db sample_peers
           ["alice"; "bob"] 1 2).
  - apply Forall_forall. repeat constructor; cbn; lia.
  - lia.
Defined.

(** The two totals of the witness: the 2 units that alice received at height
    99 are not yet two blocks deep. *)
Example getreceived_sample_depths :
  sent (api_getreceived (sample_self true) sample_db sample_peers
          (session [PList (SStr <$> ["alice"; "bob"]); PVal (SInt 1)])).2 =
    [RNumber (NInt 700000000)] ∧
  sent (api_getreceived (sample_self true) sample_db sample_peers
          (session [PList (SStr <$> ["alice"; "bob"]); PVal (SInt 2)])).2 =
    [RNumber (NInt 500000000)].
Proof. split; vm_compute; reflexivity. Qed.

(** X12: a [minconf] that is not an integer ([None], a string, a list) makes
    [api_getbalance], [api_getreceived], [api_listbalance] and
    [api_listreceived] raise the [TypeError] of [minconf < 1] once the two
    parameters are read: nothing is asked to storage, nothing is sent, and a
    third parameter is left unread. *)
Theorem aggregates_need_an_integer_minconf (self : ApiHandler) (db_handler : DbHandler)
    (peers : Peers) (addresses minconf : pyval) (rest : list pyval) (cur : list tuple)
    (tr : list event) (tr2 : list event2) :
  (∀ z, minconf ≠ PVal (SInt z)) →
  let e := unsupported "'<'" (type_name minconf) "int" in
  let w := World (addresses :: minconf :: rest) cur tr in
  let w2 := World2 (addresses :: minconf :: rest) cur tr2 in
  api_getbalance self db_handler peers w = (Raise e, World rest cur tr) ∧
  api_getreceived self db_handler peers w = (Raise e, World rest cur tr) ∧
  api_listbalance self db_handler peers w2 = (Raise e, World2 rest cur tr2) ∧
  api_listreceived self db_handler peers w2 = (Raise e, World2 rest cur tr2).
Proof.
  intros Hint e w w2.
  assert (Hfloor : py_floor minconf 1 = Raise e).
  { destruct minconf as [[| z | s] | l]; try reflexivity. destruct (Hint z eq_refl). }
  unfold api_getbalance, api_getreceived, api_listbalance, api_listreceived, w, w2.
  cbv [try_except2 raise2 mbind M2_bind mret M2_ret in_M try_except raise M_bind M_ret receive
       lift].
  cbn [w_inbox w_cursor w_trace w2_inbox w2_cursor w2_trace].
  rewrite Hfloor. cbn [w_inbox w_cursor w_trace w2_inbox w2_cursor w2_trace fmap list_fmap].
  rewrite !app_nil_r. repeat split; reflexivity.
Qed.

Lemma aggregates_need_an_integer_minconf_witness :
  let e := Exc TypeError "'<' not supported between instances of 'str' and 'int'" in
  let w := World [PList [SStr "alice"]; PVal (SStr "6"); PVal (SInt 1)] [] [] in
  let w2 := World2 [PList [SStr "alice"]; PVal (SStr "6"); PVal (SInt 1)] [] [] in
  api_getbalance (sample_self true) sample_db sample_peers w =
    (Raise e, World [PVal (SInt 1)] [] []) ∧
  api_getreceived (sample_self true) sample_db sample_peers w =
    (Raise e, World [PVal (SInt 1)] [] []) ∧
  api_listbalance (sample_self true) sample_db sample_peers w2 =
    (Raise e, World2 [PVal (SInt 1)] [] []) ∧
  api_listreceived (sample_self true) sample_db sample_peers w2 =
    (Raise e, World2 [PVal (SInt 1)] [] []).
Proof.
  apply (aggregates_need_an_integer_minconf (sample_self true) sample_db sample_peers
           (PList [SStr "alice"]) (PVal (SStr "6")) [PVal (SInt 1)] [] [] []).
  intros z. discriminate.
Defined.

(** ** A block range without its difficulties *)

(** X13: when the [misc] table holds fewer difficulties for the heights of
    a block range than the range has reward-bearing rows, [api_getblockrange]
    sends nothing: after its two queries the adapter raises [IndexError], the
    exception is logged and raised again, and [dispatch] logs it once more and
    yields [False]. *)
Theorem getblockrange_missing_difficulty (self : ApiHandler) (db_handler : DbHandler)
    (peers : Peers) (others : string → option attribute) (start_block limit : Z) :
  let stop := start_block + Z.min limit 50 in
  let rows := filter (λ r, start_block ≤ tx_block_height r ∧ tx_block_height r < stop)
                (db_transactions db_handler) in
  let diffs := filter (λ m : Z * scalar, start_block ≤ m.1 ∧ m.1 < stop)
                 (db_misc db_handler) in
  (∀ r, r ∈ rows → well_formed (to_dict self (row_tuple r))) →
  (length diffs < mining_count (to_dict self) (row_tuple <$> rows))%nat →
  let e := Exc IndexError "list index out of range" in
  let w := session [PVal (SInt start_block); PVal (SInt limit)] in
  let done :=
    [EvExecute SelectTxRange [SInt start_block; SInt stop];
     EvExecute SelectDiffRange [SInt start_block; SInt stop];
     EvLog Warning (LogExc e)] in
  api_getblockrange self db_handler peers w = (Raise e, World [] [] done) ∧
  dispatch (class_attributes self others) "api_getblockrange" db_handler peers w =
    (Return (RetBool false),
     World [] []
       (done ++ [EvLog Warning
                   (LogStr "Exception calling method api_getblockrange: list index out of range")])).
Proof.
  intros stop rows diffs Hwf Hshort e w done.
  assert (Hrun : api_getblockrange self db_handler peers w = (Raise e, World [] [] done)).
  { unfold api_getblockrange, w, session.
    cbv [mbind M_bind mret M_ret try_except receive lift emit send log raise fetchall
         _execute_param].
    cbn [w_inbox w_cursor w_trace]. rewrite py_cap_min. fold stop.
    cbn [py_add_int run_statement w_inbox w_cursor w_trace]. fold stop rows diffs.
    unfold blocktojsondiffs. rewrite run_loop_short_diffs; [reflexivity | | |].
    - intros tx Hin. apply list_elem_of_fmap in Hin as (r & -> & Hin). apply Hwf, Hin.
    - intros row Hin. apply list_elem_of_fmap in Hin as (m & -> & _). discriminate.
    - cbn. rewrite length_fmap. lia. }
  split; [exact Hrun |].
  apply (dispatch_handler_raises (class_attributes self others) "api_getblockrange"
           db_handler peers w (World [] [] done) (api_getblockrange self) e eq_refl Hrun).
Qed.

Lemma getblockrange_missing_difficulty_witness :
  let e := Exc IndexError "list index out of range" in
  let w := session [PVal (SInt 98); PVal (SInt 3)] in
  let done :=
    [EvExecute SelectTxRange [SInt 98; SInt 101];
     EvExecute SelectDiffRange [SInt 98; SInt 101];
     EvLog Warning (LogExc e)] in
  api_getblockrange (sample_self false) sample_db_short_misc sample_peers w =
    (Raise e, World [] [] done) ∧
  dispatch (class_attributes (sample_self false) (λ _, None)) "api_getblockrange"
    sample_db_short_misc sample_peers w =
    (Return (RetBool false),
     World [] []
       (done ++ [EvLog Warning
                   (LogStr "Exception calling method api_getblockrange: list index out of range")])).
Proof.
  apply (getblockrange_missing_difficulty (sample_self false) sample_db_short_misc sample_peers
           (λ _, None) 98 3).
  - apply Forall_forall. repeat constructor; eexists; reflexivity.
  - vm_compute. lia.
Defined.

(** ** Amounts by address *)

(** One more address in front of a loop that fills a mapping. *)
Lemma fill_lookup (keep : string → bool) (value : string → number) (a : string)
    (addresses : list string) (init m : gmap scalar number) :
  (∀ k, m !! k =
        match k with
        | SStr b => if bool_decide (b ∈ addresses) && keep b then Some (value b)
                    else (if keep a then <[SStr a := value a]> init else init) !! k
        | _ => (if keep a then <[SStr a := value a]> init else init) !! k
        end) →
  ∀ k, m !! k =
       match k with
       | SStr b => if bool_decide (b ∈ a :: addresses) && keep b then Some (value b)
                   else init !! k
       | _ => init !! k
       end.
Proof.
  intros Hm k. rewrite Hm. destruct k as [| z | b].
  - destruct (keep a); [rewrite lookup_insert_ne by discriminate |]; reflexivity.
  - destruct (keep a); [rewrite lookup_insert_ne by discriminate |]; reflexivity.
  - destruct (decide (a = b)) as [-> | Hne].
    + rewrite (bool_decide_eq_true_2 (b ∈ b :: addresses)) by left.
      destruct (keep b) eqn:Hkeep.
      * rewrite lookup_insert_eq. destruct (bool_decide (b ∈ addresses)); reflexivity.
      * rewrite !andb_false_r. reflexivity.
    + assert (Hin : bool_decide (b ∈ a :: addresses) = bool_decide (b ∈ addresses)).
      { apply bool_decide_ext. rewrite elem_of_cons. intuition congruence. }
      rewrite Hin. destruct (bool_decide (b ∈ addresses) && keep b); [reflexivity |].
      destruct (keep a); [rewrite lookup_insert_ne by congruence |]; reflexivity.
Qed.

(** The loops of the two handlers: the queries of each address in turn, and
    the mapping that results. *)
Lemma list_received_run (self : ApiHandler) (db_handler : DbHandler) (minconf : Z)
    (include_empty : pyval) (addresses : list string) :
  ∀ (init : gmap scalar number) (w : world),
    ∃ cur m,
      list_received self db_handler minconf include_empty (SStr <$> addresses) init w =
      (Return m,
       World (w_inbox w) cur
         (w_trace w ++ concat (received_queries db_handler minconf <$> addresses))) ∧
      ∀ k, m !! k =
           match k with
           | SStr a =>
               if bool_decide (a ∈ addresses) &&
                  (py_truthy include_empty || bool_decide (received_of db_handler a minconf > 0))
               then Some (to_units self (received_of db_handler a minconf))
               else init !! k
           | _ => init !! k
           end.
Proof.
  induction addresses as [| a addresses IH]; intros init w.
  - exists (w_cursor w), init. split.
    + cbn. rewrite app_nil_r. destruct w; reflexivity.
    + intros [| z | a]; reflexivity.
  - cbn [fmap list_fmap list_received]. unfold mbind, M_bind.
    rewrite get_received_run.
    destruct (IH (if py_truthy include_empty || bool_decide (received_of db_handler a minconf > 0)
                  then <[SStr a := to_units self (received_of db_handler a minconf)]> init
                  else init)
                 (World (w_inbox w) [] (w_trace w ++ received_queries db_handler minconf a)))
      as (cur & m & Hrun & Hm).
    exists cur, m. split.
    + rewrite Hrun. cbn [w_inbox w_trace concat]. rewrite <- app_assoc. reflexivity.
    + apply (fill_lookup
               (λ b, py_truthy include_empty || bool_decide (received_of db_handler b minconf > 0))
               (λ b, to_units self (received_of db_handler b minconf))).
      exact Hm.
Qed.

(** Dividing by 1e8 does not change the sign. *)
Lemma positive_to_units (self : ApiHandler) (z : Z) :
  positive (to_units self z) = bool_decide (z > 0).
Proof. unfold to_units. destruct (legacy_db self); reflexivity. Qed.

Lemma list_balance_run (self : ApiHandler) (db_handler : DbHandler) (minconf : Z)
    (include_empty : pyval) (addresses : list string) :
  ∀ (init : gmap scalar number) (w : world),
    ∃ cur m,
      list_balance self db_handler minconf include_empty (SStr <$> addresses) init w =
      (Return m,
       World (w_inbox w) cur
         (w_trace w ++ concat (balance_queries db_handler minconf <$> addresses))) ∧
      ∀ k, m !! k =
           match k with
           | SStr a =>
               if bool_decide (a ∈ addresses) &&
                  (py_truthy include_empty || bool_decide (balance_of db_handler a minconf > 0))
               then Some (to_units self (balance_of db_handler a minconf))
               else init !! k
           | _ => init !! k
           end.
Proof.
  induction addresses as [| a addresses IH]; intros init w.
  - exists (w_cursor w), init. split.
    + cbn. rewrite app_nil_r. destruct w; reflexivity.
    + intros [| z | a]; reflexivity.
  - cbn [fmap list_fmap list_balance]. unfold mbind, M_bind.
    rewrite get_balance_run. cbv zeta. rewrite positive_to_units.
    destruct (IH (if py_truthy include_empty || bool_decide (balance_of db_handler a minconf > 0)
                  then <[SStr a := to_units self (balance_of db_handler a minconf)]> init
                  else init)
                 (World (w_inbox w) [] (w_trace w ++ balance_queries db_handler minconf a)))
      as (cur & m & Hrun & Hm).
    exists cur, m. split.
    + rewrite Hrun. cbn [w_inbox w_trace concat]. rewrite <- app_assoc. reflexivity.
    + apply (fill_lookup
               (λ b, py_truthy include_empty || bool_decide (balance_of db_handler b minconf > 0))
               (λ b, to_units self (balance_of db_handler b minconf))).
      exact Hm.
Qed.

(** What the operations of [M] did holds no reply and is kept as it is. *)
Lemma replies_of_events (l : list event) :
  omap (λ ev, match ev with EvReply r => Some r | _ => None end) (Ev <$> l) = [].
Proof. induction l as [| ev l IH]; [reflexivity | exact IH]. Qed.

Lemma storage_events2_queries (events : string → list event) (addresses : list string) :
  (∀ a, List.filter is_storage_event (events a) = events a) →
  omap (λ ev, match ev with
              | Ev ev => if is_storage_event ev then Some ev else None
              | _ => None
              end) (Ev <$> concat (events <$> addresses)) = concat (events <$> addresses).
Proof.
  intros Hall. induction addresses as [| a addresses IH]; [reflexivity |].
  cbn [fmap list_fmap concat]. rewrite fmap_app, omap_app.
  change (list_fmap string (list event) events addresses) with (events <$> addresses).
  rewrite IH. f_equal.
  rewrite <- (Hall a) at 2. clear. induction (events a) as [| ev l IH]; [reflexivity |].
  cbn. destruct (is_storage_event ev); cbn; rewrite IH; reflexivity.
Qed.

(** X14: [api_listreceived] answers one mapping: an address is in it when
    it was asked for and either [include_empty] is true or it received more
    than zero; its entry is the amount received at [minconf] (at least 1)
    confirmations, divided by 1e8 unless the store is a legacy one.  Nothing
    else is in the mapping, a repeated address has one entry, and storage is
    asked twice per address given. *)
Theorem listreceived_mapping (self : ApiHandler) (db_handler : DbHandler) (peers : Peers)
    (addresses : list string) (minconf : Z) (include_empty : pyval) (w : world2)
    (rest : list pyval) :
  w2_inbox w = PList (SStr <$> addresses) :: PVal (SInt minconf) :: include_empty :: rest →
  let depth := Z.max 1 minconf in
  ∃ w' received,
    api_listreceived self db_handler peers w = (Return RetNone, w') ∧
    w2_inbox w' = rest ∧
    replies w' = replies w ++ [ReplyMapping received] ∧
    (∀ a, received !! SStr a =
          kept (λ a, py_truthy include_empty || bool_decide (received_of db_handler a depth > 0))
               (λ a, to_units self (received_of db_handler a depth)) addresses a) ∧
    (∀ k, is_Some (received !! k) → ∃ a, k = SStr a ∧ a ∈ addresses) ∧
    storage_events2 w' =
      storage_events2 w ++ concat (received_queries db_handler depth <$> addresses).
Proof.
  intros Hinbox depth. destruct w as [inbox cur tr]. cbn in Hinbox. subst inbox.
  unfold api_listreceived.
  cbv [try_except2 mbind M2_bind mret M2_ret in_M receive lift send_reply].
  cbn [w_inbox w_cursor w_trace w2_inbox w2_cursor w2_trace].
  rewrite py_floor_minconf. fold depth. cbn [py_iter].
  destruct (list_received_run self db_handler depth include_empty addresses ∅
              (World rest cur [])) as (cur' & m & Hrun & Hm).
  rewrite Hrun. cbn [w_inbox w_cursor w_trace w2_inbox w2_cursor w2_trace fmap list_fmap].
  eexists _, m.
  split; [reflexivity |]. split; [reflexivity |].
  split; [| split; [| split]].
  - unfold replies. cbn [w2_trace]. rewrite !omap_app. cbn.
    rewrite replies_of_events, !app_nil_r. reflexivity.
  - intros a. rewrite Hm, lookup_empty. reflexivity.
  - intros k [v Hk]. rewrite Hm in Hk. destruct k as [| z | a]; try (rewrite lookup_empty in Hk; discriminate).
    exists a. split; [reflexivity |].
    destruct (bool_decide (a ∈ addresses)) eqn:Hin; [apply bool_decide_eq_true in Hin; exact Hin |].
    cbn in Hk. rewrite lookup_empty in Hk. discriminate.
  - unfold storage_events2. cbn [w2_trace]. rewrite !omap_app. cbn.
    rewrite storage_events2_queries by reflexivity. rewrite !app_nil_r. reflexivity.
Qed.

Lemma listreceived_mapping_witness :
  ∃ w' received,
    api_listreceived (sample_self true) sample_db sample_peers
      (session2 [PList (SStr <$> ["alice"; "carol"; "alice"]); PVal (SInt 1); PVal (SInt 0)])
      = (Return RetNone, w') ∧
    w2_inbox w' = [] ∧
    replies w' = [ReplyMapping received] ∧
    (∀ a, received !! SStr a =
          kept (λ a, py_truthy (PVal (SInt 0)) || bool_decide (received_of sample_db a 1 > 0))
               (λ a, to_units (sample_self true) (received_of sample_db a 1))
               ["alice"; "carol"; "alice"] a) ∧
    (∀ k, is_Some (received !! k) → ∃ a, k = SStr a ∧ a ∈ ["alice"; "carol"; "alice"]) ∧
    storage_events2 w' =
      concat (received_queries sample_db 1 <$> ["alice"; "carol"; "alice"]).
Proof.
  apply (listreceived_mapping (sample_self true) sample_db sample_peers
           ["alice"; "carol"; "alice"] 1 (PVal (SInt 0))
           (session2 [PList (SStr <$> ["alice"; "carol"; "alice"]); PVal (SInt 1);
                      PVal (SInt 0)]) []).
  reflexivity.
Defined.

(** The mapping of the witness: carol received nothing that is one block
    deep, and is left out. *)
Example listreceived_sample :
  replies (api_listreceived (sample_self true) sample_db sample_peers
             (session2 [PList (SStr <$> ["alice"; "carol"; "alice"]); PVal (SInt 1);
                        PVal (SInt 0)])).2 =
  [ReplyMapping {[ SStr "alice" := NInt 200000000 ]}].
Proof. vm_compute. reflexivity. Qed.

(** X15: [api_listbalance] answers one mapping: an address is in it when it
    was asked for and either [include_empty] is true or its balance is above
    zero, so that an address that spent more than it got is left out; its
    entry is the balance at [minconf] (at least 1) confirmations, divided by
    1e8 unless the store is a legacy one.  Storage is asked three times per
    address given. *)
Theorem listbalance_mapping (self : ApiHandler) (db_handler : DbHandler) (peers : Peers)
    (addresses : list string) (minconf : Z) (include_empty : pyval) (w : world2)
    (rest : list pyval) :
  w2_inbox w = PList (SStr <$> addresses) :: PVal (SInt minconf) :: include_empty :: rest →
  let depth := Z.max 1 minconf in
  ∃ w' balances,
    api_listbalance self db_handler peers w = (Return RetNone, w') ∧
    w2_inbox w' = rest ∧
    replies w' = replies w ++ [ReplyMapping balances] ∧
    (∀ a, balances !! SStr a =
          kept (λ a, py_truthy include_empty || bool_decide (balance_of db_handler a depth > 0))
               (λ a, to_units self (balance_of db_handler a depth)) addresses a) ∧
    (∀ k, is_Some (balances !! k) → ∃ a, k = SStr a ∧ a ∈ addresses) ∧
    storage_events2 w' =
      storage_events2 w ++ concat (balance_queries db_handler depth <$> addresses).
Proof.
  intros Hinbox depth. destruct w as [inbox cur tr]. cbn in Hinbox. subst inbox.
  unfold api_listbalance.
  cbv [try_except2 mbind M2_bind mret M2_ret in_M receive lift send_reply].
  cbn [w_inbox w_cursor w_trace w2_inbox w2_cursor w2_trace].
  rewrite py_floor_minconf. fold depth. cbn [py_iter].
  destruct (list_balance_run self db_handler depth include_empty addresses ∅
              (World rest cur [])) as (cur' & m & Hrun & Hm).
  rewrite Hrun. cbn [w_inbox w_cursor w_trace w2_inbox w2_cursor w2_trace fmap list_fmap].
  eexists _, m.
  split; [reflexivity |]. split; [reflexivity |].
  split; [| split; [| split]].
  - unfold replies. cbn [w2_trace]. rewrite !omap_app. cbn.
    rewrite replies_of_events, !app_nil_r. reflexivity.
  - intros a. rewrite Hm, lookup_empty. reflexivity.
  - intros k [v Hk]. rewrite Hm in Hk. destruct k as [| z | a]; try (rewrite lookup_empty in Hk; discriminate).
    exists a. split; [reflexivity |].
    destruct (bool_decide (a ∈ addresses)) eqn:Hin; [apply bool_decide_eq_true in Hin; exact Hin |].
    cbn in Hk. rewrite lookup_empty in Hk. discriminate.
  - unfold storage_events2. cbn [w2_trace]. rewrite !omap_app. cbn.
    rewrite storage_events2_queries by reflexivity. rewrite !app_nil_r. reflexivity.
Qed.

Lemma listbalance_mapping_witness :
  ∃ w' balances,
    api_listbalance (sample_self true) sample_db sample_peers
      (session2 [PList (SStr <$> ["alice"; "bob"]); PVal (SInt 1); PVal (SInt 0)])
      = (Return RetNone, w') ∧
    w2_inbox w' = [] ∧
    replies w' = [ReplyMapping balances] ∧
    (∀ a, balances !! SStr a =
          kept (λ a, py_truthy (PVal (SInt 0)) || bool_decide (balance_of sample_db a 1 > 0))
               (λ a, to_units (sample_self true) (balance_of sample_db a 1))
               ["alice"; "bob"] a) ∧
    (∀ k, is_Some (balances !! k) → ∃ a, k = SStr a ∧ a ∈ ["alice"; "bob"]) ∧
    storage_events2 w' = concat (balance_queries sample_db 1 <$> ["alice"; "bob"]).
Proof.
  apply (listbalance_mapping (sample_self true) sample_db sample_peers
           ["alice"; "bob"] 1 (PVal (SInt 0))
           (session2 [PList (SStr <$> ["alice"; "bob"]); PVal (SInt 1); PVal (SInt 0)]) []).
  reflexivity.
Defined.

(** The mapping of the witness: alice spent more than she got, and is left
    out. *)
Example listbalance_sample :
  replies (api_listbalance (sample_self true) sample_db sample_peers
             (session2 [PList (SStr <$> ["alice"; "bob"]); PVal (SInt 1); PVal (SInt 0)])).2 =
  [ReplyMapping {[ SStr "bob" := NInt 299000000 ]}].
Proof. vm_compute. reflexivity. Qed.

(** ** The mempool snapshot and the peers *)


(** A mempool whose snapshot fails, called through [dispatch]: the client
    gets no answer, and the failure is logged by [dispatch] alone. *)
Example mempool_snapshot_fails :
  dispatch (λ _, Some (AttrCallable
              (api_mempool (Some (Raise (Exc (OtherError "sqlite3.OperationalError")
                                            "database is locked"))))))
    "api_mempool" sample_db sample_peers (session []) =
  (Return (RetBool false),
   World [] []
     [EvLog Warning (LogStr "Exception calling method api_mempool: database is locked")]).
Proof. reflexivity. Qed.

(** X17: [api_getpeerinfo] answers with one entry per peer of
    [peers.consensus], in its order: the entry at position [i] has the id
    [i] and the address of the peer at position [i], and is reported as
    inbound.  It reads nothing, asks nothing to storage, and returns
    [None]. *)
Theorem getpeerinfo_lists_the_peers (db_handler : DbHandler) (peers : Peers) (w : world2) :
  ∃ w' info,
    api_getpeerinfo db_handler peers w = (Return RetNone, w') ∧
    w2_inbox w' = w2_inbox w ∧
    replies w' = replies w ++ [ReplyPeers info] ∧
    storage_events2 w' = storage_events2 w ∧
    length info = length (consensus peers) ∧
    ∀ i entry, info !! i = Some entry ↔
               ∃ ip, consensus peers !! i = Some ip ∧ entry = (i, ip, true).
Proof.
  unfold api_getpeerinfo.
  cbv [try_except2 mbind M2_bind mret M2_ret send_reply].
  do 2 eexists. split; [reflexivity |]. split; [reflexivity |].
  split; [unfold replies; cbn; rewrite omap_app; reflexivity |].
  split; [unfold storage_events2; cbn; rewrite omap_app; apply app_nil_r |].
  split; [apply length_imap |].
  intros i entry. rewrite list_lookup_imap.
  destruct (consensus peers !! i) as [ip |]; cbn.
  - split; [intros [= <-]; eauto | intros (ip' & [= <-] & ->); reflexivity].
  - split; [discriminate | intros (ip' & [=] & _)].
Qed.

(** ** One answer per command *)

(** Nothing added, and one run after another. *)
Lemma answers_refl (w w' : world) (P : list response → Prop) :
  w_trace w' = w_trace w → P [] → answers w w' P.
Proof. intros Htr HP. exists []. rewrite app_nil_r. split; [exact Htr | exact HP]. Qed.

Lemma answers_trans (w1 w2 w3 : world) (P Q R : list response → Prop) :
  (∀ s1 s2, P s1 → Q s2 → R (s1 ++ s2)) →
  answers w1 w2 P → answers w2 w3 Q → answers w1 w3 R.
Proof.
  intros HR (e1 & H1 & HP) (e2 & H2 & HQ). exists (e1 ++ e2). split.
  - rewrite H2, H1, app_assoc. reflexivity.
  - unfold sent in *. cbn [w_trace session_trace] in *. rewrite omap_app. apply HR; assumption.
Qed.

(** The operations that send nothing. *)
Lemma silent_ret {A} (a : A) : silent (mret a).
Proof. intros w. apply answers_refl; reflexivity. Qed.

Lemma silent_raise {A} (e : exc) : silent (raise (A:=A) e).
Proof. intros w. apply answers_refl; reflexivity. Qed.

Lemma silent_lift {A} (o : outcome A) : silent (lift o).
Proof. intros w. apply answers_refl; reflexivity. Qed.

Lemma silent_receive : silent receive.
Proof. intros w. unfold receive. destruct (w_inbox w); apply answers_refl; reflexivity. Qed.

Lemma silent_fetchall : silent fetchall.
Proof. intros w. apply answers_refl; reflexivity. Qed.

Lemma silent_fetchone : silent fetchone.
Proof. intros w. unfold fetchone. destruct (w_cursor w); apply answers_refl; reflexivity. Qed.

Lemma silent_log (lvl : level) (msg : logmsg) : silent (log lvl msg).
Proof. intros w. exists [EvLog lvl msg]. split; reflexivity. Qed.

Lemma silent_db_call (method : string) (args : list pyval) : silent (emit (EvDbCall method args)).
Proof. intros w. exists [EvDbCall method args]. split; reflexivity. Qed.

Lemma silent_execute (db_handler : DbHandler) (stmt : statement) (params : list scalar) :
  silent (_execute_param db_handler stmt params).
Proof.
  intros w. exists [EvExecute stmt params]. unfold _execute_param.
  destruct (run_statement db_handler stmt params); split; reflexivity.
Qed.

Lemma silent_bind {A B} (m : M A) (k : A → M B) :
  silent m → (∀ a, silent (k a)) → silent (m ≫= k).
Proof.
  intros Hm Hk w. specialize (Hm w). unfold mbind, M_bind.
  destruct (m w) as [[a | e] w1]; cbn [snd] in *.
  - eapply answers_trans; [| exact Hm | apply Hk]. intros s1 s2 -> ->. reflexivity.
  - exact Hm.
Qed.

Lemma silent_try {A} (body : M A) (handler : exc → M A) :
  silent body → (∀ e, silent (handler e)) → silent (try_except body handler).
Proof.
  intros Hm Hk w. specialize (Hm w). unfold try_except.
  destruct (body w) as [[a | e] w1]; cbn [snd] in *.
  - exact Hm.
  - eapply answers_trans; [| exact Hm | apply Hk]. intros s1 s2 -> ->. reflexivity.
Qed.

Lemma silent_block_height_max (db_handler : DbHandler) : silent (block_height_max db_handler).
Proof. apply silent_bind; [apply silent_db_call | intros; apply silent_ret]. Qed.

(** One answer at the end of what sent nothing. *)
Lemma once_send {A} (r : response) (a : A) : answers_once (send r;; mret a).
Proof. intros w. exists [EvSend r]. split; reflexivity. Qed.

Lemma once_raise {A} (e : exc) : answers_once (raise (A:=A) e).
Proof. intros w. apply answers_refl; reflexivity. Qed.

Lemma once_bind {A B} (m : M A) (k : A → M B) :
  silent m → (∀ a, answers_once (k a)) → answers_once (m ≫= k).
Proof.
  intros Hm Hk w. specialize (Hm w). unfold mbind, M_bind.
  destruct (m w) as [[a | e] w1]; cbn [fst snd] in *.
  - specialize (Hk a w1).
    eapply answers_trans; [| exact Hm | exact Hk]. intros s1 s2 -> Hs. exact Hs.
  - exact Hm.
Qed.

Lemma once_try {A} (body : M A) (handler : exc → M A) :
  answers_once body → (∀ e, silent (handler e)) → (∀ e, fails (handler e)) →
  answers_once (try_except body handler).
Proof.
  intros Hm Hs Hf w. specialize (Hm w). unfold try_except.
  destruct (body w) as [[a | e] w1]; cbn [fst snd] in *.
  - exact Hm.
  - destruct (Hf e w1) as [e' He']. rewrite He'.
    eapply answers_trans; [| exact Hm | apply Hs]. intros s1 s2 -> ->. reflexivity.
Qed.

Lemma at_most_once {A} (m : M A) : answers_once m → answers_at_most_once m.
Proof.
  intros Hm w. destruct (Hm w) as (extra & Htr & Hs). exists extra. split; [exact Htr |].
  destruct (m w).1; [lia | rewrite Hs; cbn; lia].
Qed.

Lemma at_most_once_bind {A B} (m : M A) (k : A → M B) :
  silent m → (∀ a, answers_at_most_once (k a)) → answers_at_most_once (m ≫= k).
Proof.
  intros Hm Hk w. specialize (Hm w). unfold mbind, M_bind.
  destruct (m w) as [[a | e] w1]; cbn [fst snd] in *.
  - eapply answers_trans; [| exact Hm | apply Hk]. intros s1 s2 -> Hs. exact Hs.
  - destruct Hm as (extra & Htr & Hs). exists extra. split; [exact Htr |]. rewrite Hs. cbn. lia.
Qed.

Lemma at_most_once_try {A} (body : M A) (handler : exc → M A) :
  answers_at_most_once body → (∀ e, silent (handler e)) →
  answers_at_most_once (try_except body handler).
Proof.
  intros Hm Hs w. specialize (Hm w). unfold try_except.
  destruct (body w) as [[a | e] w1]; cbn [fst snd] in *.
  - exact Hm.
  - eapply answers_trans; [| exact Hm | apply Hs]. intros s1 s2 Hle ->.
    rewrite app_nil_r. exact Hle.
Qed.

Lemma silent_accumulate (f : scalar → M Z) (addresses : list scalar) :
  (∀ a, silent (f a)) → ∀ total, silent (accumulate f addresses total).
Proof.
  intros Hf. induction addresses as [| a addresses IH]; intros total.
  - apply silent_ret.
  - cbn [accumulate]. apply silent_bind; [apply Hf | intros x; apply IH].
Qed.

(** The handlers of [except] clauses that raise again. *)
Lemma fails_raise {A} (e : exc) : fails (raise (A:=A) e).
Proof. intros w. eexists. reflexivity. Qed.

Lemma fails_log_raise {A} (lvl : level) (msg : logmsg) (e : exc) :
  fails (log lvl msg;; raise (A:=A) e).
Proof. intros w. eexists. reflexivity. Qed.

Lemma fails_log_log_raise {A} (lvl1 lvl2 : level) (msg1 msg2 : logmsg) (e : exc) :
  fails (log lvl1 msg1;; log lvl2 msg2;; raise (A:=A) e).
Proof. intros w. eexists. reflexivity. Qed.

(** Goes through an operation that sends nothing, or that ends on its one
    answer. *)
Ltac quiet :=
  repeat first
    [ apply silent_ret | apply silent_raise | apply silent_lift | apply silent_receive
    | apply silent_fetchall | apply silent_fetchone | apply silent_log | apply silent_db_call
    | apply silent_execute | apply silent_block_height_max
    | apply silent_accumulate; intros ?
    | apply silent_try; [| intros ?]
    | apply silent_bind; [| intros ?]
    | match goal with |- silent (let '(_, _) := ?p in _) => destruct p end
    | match goal with |- silent (match ?x with _ => _ end) => destruct x end ].

Ltac one_answer :=
  repeat first
    [ apply once_send | apply once_raise
    | apply once_try; [| intros ?; quiet
                       | intros ?; first [apply fails_raise | apply fails_log_raise
                                         | apply fails_log_log_raise]]
    | apply once_bind; [solve [quiet] | intros ?]
    | match goal with |- answers_once (let '(_, _) := ?p in _) => destruct p end
    | match goal with |- answers_once (match ?x with _ => _ end) => destruct x end ].

Lemma get_balance_silent (db_handler : DbHandler) (address : scalar) (minconf : Z) :
  silent (_get_balance db_handler address minconf).
Proof. unfold _get_balance. quiet. Qed.

Lemma get_received_silent (db_handler : DbHandler) (address : scalar) (minconf : Z) :
  silent (_get_received db_handler address minconf).
Proof. unfold _get_received. quiet. Qed.

(** The outer [except] of [api_getaddressinfo] returns: an answer may be
    missing, a second one is never sent. *)
Lemma getaddressinfo_at_most_once (self : ApiHandler) (db_handler : DbHandler) (peers : Peers) :
  answers_at_most_once (api_getaddressinfo self db_handler peers).
Proof.
  unfold api_getaddressinfo.
  apply at_most_once_bind; [quiet | intros address].
  apply at_most_once_try; [| intros e; quiet].
  apply at_most_once. one_answer.
Qed.

Lemma handlers_answer (self : ApiHandler) (mempool : option (outcome (list tuple)))
    (db_handler : DbHandler) (peers : Peers) :
  Forall (λ h, answers_at_most_once (h.2 db_handler peers) ∧
               (h.1 ≠ "api_getaddressinfo" → answers_once (h.2 db_handler peers)))
         (handlers self mempool).
Proof.
  unfold handlers.
  repeat first
    [ apply Forall_nil_2
    | apply Forall_cons; split; [cbn [fst snd] |] ].
  all: try (split; [| intros Hname; try (exfalso; apply Hname; reflexivity)]).
  all: try apply getaddressinfo_at_most_once.
  all: try apply at_most_once.
  all: unfold api_mempool, api_ping, api_getaddressrange, api_getblockrange, api_getblocksince,
         api_getblockswhereoflike, api_getblocksafterwhere, api_getaddresssince,
         api_getbalance, api_getreceived, api_gettransaction, api_gettransactionbysignature,
         api_gettransaction_for_recipients.
  all: one_answer.
Qed.

(** What returns, returns [None]. *)
Lemma none_ret : ends_in_none (mret RetNone).
Proof. intros w result w' [= <- _]. reflexivity. Qed.

Lemma none_raise (e : exc) : ends_in_none (raise e).
Proof. intros w result w' [=]. Qed.

Lemma none_bind {A} (m : M A) (k : A → M retval) :
  (∀ a, ends_in_none (k a)) → ends_in_none (m ≫= k).
Proof.
  intros Hk w result w'. unfold mbind, M_bind.
  destruct (m w) as [[a | e] w1]; [apply Hk | discriminate].
Qed.

Lemma none_try (body : M retval) (handler : exc → M retval) :
  ends_in_none body → (∀ e, ends_in_none (handler e)) →
  ends_in_none (try_except body handler).
Proof.
  intros Hbody Hhandler w result w'. unfold try_except.
  destruct (body w) as [[a | e] w1] eqn:Hrun; [| apply Hhandler].
  intros [= <- _]. apply (Hbody w a w1 Hrun).
Qed.

Ltac none_at_the_end :=
  repeat first
    [ apply none_ret | apply none_raise
    | apply none_try; [| intros ?]
    | apply none_bind; intros ?
    | match goal with |- ends_in_none (let '(_, _) := ?p in _) => destruct p end
    | match goal with |- ends_in_none (match ?x with _ => _ end) => destruct x end ].

Lemma handlers_end_in_none (self : ApiHandler) (mempool : option (outcome (list tuple)))
    (db_handler : DbHandler) (peers : Peers) :
  Forall (λ h, ends_in_none (h.2 db_handler peers)) (handlers self mempool).
Proof.
  unfold handlers.
  repeat first [ apply Forall_nil_2 | apply Forall_cons; split; [cbn [fst snd] |] ].
  all: unfold api_mempool, api_ping, api_getaddressinfo, api_getaddressrange, api_getblockrange,
         api_getblocksince, api_getblockswhereoflike, api_getblocksafterwhere,
         api_getaddresssince, api_getbalance, api_getreceived, api_gettransaction,
         api_gettransactionbysignature, api_gettransaction_for_recipients.
  all: none_at_the_end.
Qed.

(** X18: what [dispatch] yields for a query handler tells whether the client
    was answered.  The result is [None] or [False], never a true value; at
    most one answer is sent, after whatever was done before; and for every
    handler but [api_getaddressinfo] the result is [None] exactly when one
    answer was sent: a handler that raises has sent nothing. *)
Theorem dispatch_result_tells_answer (self : ApiHandler)
    (mempool : option (outcome (list tuple)))
    (attributes : string → option attribute) (method name : string)
    (call : DbHandler → Peers → M retval) (db_handler : DbHandler) (peers : Peers)
    (w : world) :
  (name, call) ∈ handlers self mempool →
  attributes method = Some (AttrCallable call) →
  ∃ result w' extra,
    dispatch attributes method db_handler peers w = (Return result, w') ∧
    w_trace w' = w_trace w ++ extra ∧
    (length (sent (session_trace extra)) ≤ 1)%nat ∧
    (result = RetNone ∨ result = RetBool false) ∧
    (name ≠ "api_getaddressinfo" →
     (result = RetNone ↔ length (sent (session_trace extra)) = 1%nat)).
Proof.
  intros Hin Hattr.
  pose proof (handlers_answer self mempool db_handler peers) as Hanswer.
  pose proof (handlers_end_in_none self mempool db_handler peers) as Hnone.
  rewrite Forall_forall in Hanswer, Hnone.
  destruct (Hanswer _ Hin) as [Hmost Honce]. specialize (Hnone _ Hin).
  cbn [fst snd] in Hmost, Honce, Hnone.
  destruct (call db_handler peers w) as [[result | e] w1] eqn:Hrun.
  - pose proof (Hnone w result w1 Hrun) as Hresult. subst result.
    exists RetNone, w1.
    destruct (Hmost w) as (extra & Htrace & Hle). rewrite Hrun in Htrace. cbn [snd] in Htrace.
    exists extra.
    split; [exact (dispatch_handler_returns attributes method db_handler peers w w1 call
                     RetNone Hattr Hrun) |].
    split; [exact Htrace |]. split; [exact Hle |]. split; [left; reflexivity |].
    intros Hname. destruct (Honce Hname w) as (extra' & Htrace' & Hone).
    rewrite Hrun in Htrace', Hone. cbn [fst snd] in Htrace', Hone.
    rewrite Htrace in Htrace'. apply app_inv_head in Htrace'. subst extra'.
    split; [intros _; exact Hone | reflexivity].
  - destruct (Hmost w) as (extra & Htrace & Hle). rewrite Hrun in Htrace. cbn [snd] in Htrace.
    eexists (RetBool false), _, (extra ++ [_]).
    split; [exact (dispatch_handler_raises attributes method db_handler peers w w1 call e
                     Hattr Hrun) |].
    cbn [w_trace].
    assert (Hsent : ∀ ev, sent (session_trace (extra ++ [EvLog Warning ev])) =
                          sent (session_trace extra)).
    { intros ev. unfold sent. cbn [w_trace session_trace]. rewrite omap_app. apply app_nil_r. }
    split; [rewrite Htrace, app_assoc; reflexivity |].
    rewrite Hsent. split; [exact Hle |]. split; [right; reflexivity |].
    intros Hname. destruct (Honce Hname w) as (extra' & Htrace' & Hone).
    rewrite Hrun in Htrace', Hone. cbn [fst snd] in Htrace', Hone.
    rewrite Htrace in Htrace'. apply app_inv_head in Htrace'. subst extra'.
    rewrite Hone. split; [discriminate | discriminate].
Qed.

Lemma dispatch_result_tells_answer_witness :
  ∃ result w' extra,
    dispatch (class_attributes (sample_self true) (λ _, None)) "api_getbalance"
      sample_db sample_peers (session [PList [SStr "alice"]; PVal SNone]) = (Return result, w') ∧
    w_trace w' = extra ∧
    (length (sent (session_trace extra)) ≤ 1)%nat ∧
    (result = RetNone ∨ result = RetBool false) ∧
    ("api_getbalance" ≠ "api_getaddressinfo" →
     (result = RetNone ↔ length (sent (session_trace extra)) = 1%nat)).
Proof.
  apply (dispatch_result_tells_answer (sample_self true) None
           (class_attributes (sample_self true) (λ _, None)) "api_getbalance" "api_getbalance"
           (api_getbalance (sample_self true)) sample_db sample_peers
           (session [PList [SStr "alice"]; PVal SNone])).
  - unfold handlers. rewrite !elem_of_cons. do 9 right. left. reflexivity.
  - reflexivity.
Defined.

(** The run of the witness: the handler raised, nothing was sent, and the
    result is [False]. *)
Example dispatch_getbalance_without_minconf :
  dispatch (class_attributes (sample_self true) (λ _, None)) "api_getbalance"
    sample_db sample_peers (session [PList [SStr "alice"]; PVal SNone]) =
  (Return (RetBool false),
   World [] []
     [EvLog Warning
        (LogStr ("Exception calling method api_getbalance: " +:+
                 "'<' not supported between instances of 'NoneType' and 'int'"))]).
Proof. reflexivity. Qed.
